(** * wordlist_tool.py: frequency quantizer, n-gram counter and wordlist writer

    A shallow embedding of [src/wordlist_tool.py].

    - Python [int] is [Z].
    - Python [float] is binary64.  The float operations the program uses
      are an interface, [FloatOps]; what the proofs need of them is stated
      as [FloatLaws]: facts of IEEE-754 arithmetic rounded to nearest, and
      of a logarithm that does not decrease.  Nothing is proved from the
      values of inexact operations.
    - Exceptions are values of [exn]; a computation returns a [result].
    - The external collaborators (Unicode case functions, the hunspell
      dictionary, the clock) are parameters. *)

From Stdlib Require Import ZArith List String Ascii Bool Lia.
From Stdlib Require Import Reals Lra.
From Stdlib Require Import DecimalString.
From Stdlib Require Import Sorting.Sorted Sorting.Permutation.
From Stdlib Require PrimFloat FloatOps FloatAxioms Uint63.
Import ListNotations.

Open Scope Z_scope.

(** ** Exceptions *)

Inductive exn : Type :=
| ValueError
| ZeroDivisionError.

Inductive result (A : Type) : Type :=
| Ok (a : A)
| Raise (e : exn).

Arguments Ok {A} a.
Arguments Raise {A} e.

Definition bind {A B : Type} (r : result A) (k : A -> result B) : result B :=
  match r with
  | Ok a => k a
  | Raise e => Raise e
  end.

Notation "x <- c ;; k" := (bind c (fun x => k))
  (at level 61, c at next level, right associativity).

(** ** Float arithmetic *)

(** The operations on [float] that the program calls.  [log115 n] is
    [math.log(n, 1.15)] for an integer [n >= 1]; [of_int] is the conversion
    of an [int] operand of a mixed operation; [fdiv], [fmul] and [fadd] are
    [/], [*] and [+]; [is_zero b] is [b == 0.0], the test that makes [/]
    raise; [round_int] is [round] with one argument; [fle] is [<=] and
    [positive x] says that [x] is finite and above zero. *)
Class FloatOps : Type := {
  float64 : Type;
  of_int : Z -> float64;
  log115 : Z -> float64;
  fdiv : float64 -> float64 -> float64;
  fmul : float64 -> float64 -> float64;
  fadd : float64 -> float64 -> float64;
  is_zero : float64 -> bool;
  round_int : float64 -> Z;
  fle : float64 -> float64 -> Prop;
  positive : float64 -> Prop
}.

(** What the proofs use of the arithmetic.  In binary64, rounded to nearest:
    - integers up to 255 are floats, and their sums and products within that
      range are exact ([fadd_small], [fmul_small], [round_of_int]);
    - every operation returns the float nearest to the exact result, so it
      keeps the order of its operands ([fdiv_mono], [fmul_mono], [fadd_mono],
      [round_mono]; an operand that is not a number is below nothing);
    - [x / x] is exactly 1 and [0 / x] exactly 0 for a finite [x > 0]
      ([fdiv_self], [fdiv_zero]);
    - the logarithm of 1 is exactly 0, so [math.log(1, 1.15)] is 0
      ([log115_one]); the logarithm of an integer from 2 on is finite and
      above 0 ([log115_positive]).
    [log115_mono] is asked of the C library: its logarithm does not decrease
    from one integer to a larger one. *)
Class FloatLaws (F : FloatOps) : Prop := {
  is_zero_zero : is_zero (of_int 0) = true;
  positive_not_zero : forall x, positive x -> is_zero x = false;
  log115_one : log115 1 = of_int 0;
  log115_positive : forall n, 2 <= n -> positive (log115 n);
  log115_mono : forall a b, 1 <= a -> a <= b -> fle (log115 a) (log115 b);
  fdiv_self : forall d, positive d -> fdiv d d = of_int 1;
  fdiv_zero : forall d, positive d -> fdiv (of_int 0) d = of_int 0;
  fdiv_mono : forall x y d,
    positive d -> fle x y -> fle (fdiv x d) (fdiv y d);
  fmul_small : forall a b,
    0 <= a <= 255 -> 0 <= b <= 1 -> fmul (of_int a) (of_int b) = of_int (a * b);
  fmul_mono : forall k x y,
    0 < k <= 255 -> fle x y -> fle (fmul (of_int k) x) (fmul (of_int k) y);
  fadd_small : forall a b,
    0 <= a <= 255 -> 0 <= b <= 255 ->
    fadd (of_int a) (of_int b) = of_int (a + b);
  fadd_mono : forall k x y,
    0 <= k <= 255 -> fle x y -> fle (fadd x (of_int k)) (fadd y (of_int k));
  round_of_int : forall n, 0 <= n <= 255 -> round_int (of_int n) = n;
  round_mono : forall x y, fle x y -> round_int x <= round_int y
}.

(** ** The quantizer (lines 16-33) *)

Module Quantizer.

Definition MONOGRAM_SPACE : Z := 175.

Section Arith.
Context {F : FloatOps}.

(** [math.log(x, 1.15)] for an integer [x]: [ValueError] when [x <= 0]. *)
Definition math_log (x : Z) : result float64 :=
  if x <=? 0 then Raise ValueError else Ok (log115 x).

(** Float division [a / b]: [ZeroDivisionError] when [b == 0.0]. *)
Definition float_div (a b : float64) : result float64 :=
  if is_zero b then Raise ZeroDivisionError else Ok (fdiv a b).

Definition word_cnt_to_freq (word_cnt max_cnt : Z) (bigram : bool) : result Z :=
  num <- math_log word_cnt ;;
  den <- math_log max_cnt ;;
  q <- float_div num den ;;
  if bigram then
    Ok (round_int
          (fadd (fadd (fmul (of_int (255 - MONOGRAM_SPACE - 1)) q)
                      (of_int MONOGRAM_SPACE))
                (of_int 1)))
  else
    Ok (round_int (fadd (fmul (of_int (MONOGRAM_SPACE - 1)) q) (of_int 1))).

(** The value the quantizer rounds, as a function of the quotient of the two
    logarithms. *)
Definition scaled (bigram : bool) (q : float64) : float64 :=
  if bigram then
    fadd (fadd (fmul (of_int (255 - MONOGRAM_SPACE - 1)) q)
               (of_int MONOGRAM_SPACE))
         (of_int 1)
  else fadd (fmul (of_int (MONOGRAM_SPACE - 1)) q) (of_int 1).

Definition log_quotient (c m : Z) : float64 :=
  fdiv (log115 c) (log115 m).
End Arith.

End Quantizer.

(** The arithmetic without rounding error: real numbers, the real logarithm
    and rounding of a real to the nearest integer, ties to even.  It
    satisfies [FloatLaws] and serves where a statement needs one concrete
    arithmetic. *)
Module ExactArith.

(** The base of the logarithm, the literal [1.15]. *)
Definition log_base : R := (115 / 100)%R.

(** [round(x)] with one argument: the nearest integer, a tie going to the
    even neighbour. *)
Definition py_round (x : R) : Z :=
  let n := Int_part x in
  let r := frac_part x in
  if Rlt_dec r (1 / 2) then n
  else if Rlt_dec (1 / 2) r then n + 1
  else if Z.even n then n else n + 1.

Definition ops : FloatOps := {|
  float64 := R;
  of_int := IZR;
  log115 := fun n => (ln (IZR n) / ln log_base)%R;
  fdiv := Rdiv;
  fmul := Rmult;
  fadd := Rplus;
  is_zero := fun x => if Req_dec_T x 0 then true else false;
  round_int := py_round;
  fle := Rle;
  positive := fun x => (0 < x)%R
|}.

End ExactArith.

(** Binary64 itself, on the machine floats of the prover: the operations are
    the IEEE-754 ones, rounded to nearest, ties to even.  The logarithm is
    not among them; [libm_log] holds the values the C library returns at the
    arguments of the runs evaluated below. *)
Module Binary64.
Import PrimFloat FloatOps.

(** An [int] below [2^63] in magnitude as a float. *)
Definition of_Z (z : Z) : float :=
  match z with
  | Z0 => zero
  | Zpos _ => of_uint63 (Uint63.of_Z z)
  | Zneg p => opp (of_uint63 (Uint63.of_Z (Zpos p)))
  end.

(** The integer that a float of integral value holds. *)
Definition to_Z (x : float) : Z :=
  match Prim2SF x with
  | SpecFloat.S754_finite s m e => (if s then -1 else 1) * Z.shiftl (Zpos m) e
  | _ => 0
  end.

Definition two52 : float := 0x1p52%float.

(** [round(x)]: below [2^52] in magnitude, adding and subtracting [2^52]
    rounds to the nearest integer, ties to even; from [2^52] on a float is
    an integer. *)
Definition round_half_even (x : float) : Z :=
  if ltb x zero then - to_Z (sub (add (opp x) two52) two52)
  else if ltb x two52 then to_Z (sub (add x two52) two52)
  else to_Z x.

(** [math.log(n)] as the C library returns it. *)
Definition libm_log (n : Z) : float :=
  match n with
  | 1 => zero
  | 2 => 0x1.62e42fefa39efp-1%float
  | 8 => 0x1.0a2b23f3bab73p+1%float
  | 16 => 0x1.62e42fefa39efp+1%float
  | 1000 => 0x1.ba18a998fffa0p+2%float
  | 10000 => 0x1.26bb1bbb55516p+3%float
  | 2048 => 0x1.e7f9c1e980fa9p+2%float
  | 4096 => 0x1.0a2b23f3bab73p+3%float
  | _ => nan
  end.

(** [math.log(1.15)]. *)
Definition libm_log_base : float := 0x1.1e3b825dd05e9p-3%float.

(** The fields, in the order of [FloatOps]: the type, [of_int], [log115],
    [fdiv], [fmul], [fadd], [is_zero], [round_int], [fle], [positive]. *)
Definition ops : FloatOps :=
  Build_FloatOps float of_Z
    (fun n => div (libm_log n) libm_log_base)
    div mul add
    (fun x => eqb x zero)
    round_half_even
    (fun x y => leb x y = true)
    (fun x => (ltb zero x && ltb x infinity)%bool = true).

(** The integers from 0 to 255. *)
Definition small_ints : list Z := map Z.of_nat (seq 0 256).

End Binary64.

(** ** External collaborators *)

(** The Unicode operations of the Python runtime that the program calls:
    [unicodedata.normalize("NFC", _)], [str.lower], [str.upper],
    [str.capitalize] and [str.isalpha]. *)
Class Unicode : Type := {
  normalize_NFC : string -> string;
  lower : string -> string;
  upper : string -> string;
  capitalize : string -> string;
  isalpha : string -> bool
}.

(** The answer of [hobj.spell(w)]: [Some b] when it returns [b], [None] when
    it raises [UnicodeEncodeError]. *)
Definition speller : Type := string -> option bool.

(** An ASCII instance, which agrees with Python on ASCII text. *)
Module AsciiText.

Definition is_upper (c : ascii) : bool :=
  ((65 <=? nat_of_ascii c) && (nat_of_ascii c <=? 90))%nat.

Definition is_lower (c : ascii) : bool :=
  ((97 <=? nat_of_ascii c) && (nat_of_ascii c <=? 122))%nat.

Definition to_lower (c : ascii) : ascii :=
  if is_upper c then ascii_of_nat (nat_of_ascii c + 32) else c.

Definition to_upper (c : ascii) : ascii :=
  if is_lower c then ascii_of_nat (nat_of_ascii c - 32) else c.

Fixpoint map_string (f : ascii -> ascii) (s : string) : string :=
  match s with
  | EmptyString => EmptyString
  | String c s' => String (f c) (map_string f s')
  end.

Fixpoint all_string (p : ascii -> bool) (s : string) : bool :=
  match s with
  | EmptyString => true
  | String c s' => p c && all_string p s'
  end.

Definition capitalize_ascii (s : string) : string :=
  match s with
  | EmptyString => EmptyString
  | String c s' => String (to_upper c) (map_string to_lower s')
  end.

Definition isalpha_ascii (s : string) : bool :=
  match s with
  | EmptyString => false
  | _ => all_string (fun c => is_upper c || is_lower c) s
  end.

Definition unicode : Unicode := {|
  normalize_NFC := fun s => s;
  lower := map_string to_lower;
  upper := map_string to_upper;
  capitalize := capitalize_ascii;
  isalpha := isalpha_ascii
|}.

End AsciiText.

(** ** Python containers *)

(** [x in s] for a set of strings. *)
Definition str_in (x : string) (s : list string) : bool :=
  existsb (String.eqb x) s.

(** [c in s] for a one-character pattern and a string. *)
Fixpoint char_in (c : ascii) (s : string) : bool :=
  match s with
  | EmptyString => false
  | String d s' => Ascii.eqb c d || char_in c s'
  end.

(** [max(l)] of a list of integers; [ValueError] on the empty list. *)
Definition py_max (l : list Z) : result Z :=
  match l with
  | [] => Raise ValueError
  | x :: l' => Ok (fold_left Z.max l' x)
  end.

(** [l[:n]]: a negative [n] counts from the end. *)
Definition slice_to {A : Type} (l : list A) (n : Z) : list A :=
  if n <? 0 then firstn (Z.to_nat (Z.of_nat (List.length l) + n)) l
  else firstn (Z.to_nat n) l.

(** [str(n)] of an integer, as [format] renders it. *)
Definition string_of_Z (n : Z) : string :=
  NilZero.string_of_int (Z.to_int n).

(** A [dict] keeps its keys in insertion order: an association list without
    repeated keys. *)
Section Dict.
Context {K V : Type} (eqb : K -> K -> bool).

Fixpoint dict_mem (k : K) (d : list (K * V)) : bool :=
  match d with
  | [] => false
  | (k', _) :: d' => eqb k k' || dict_mem k d'
  end.

Fixpoint dict_get (k : K) (d : list (K * V)) : option V :=
  match d with
  | [] => None
  | (k', v) :: d' => if eqb k k' then Some v else dict_get k d'
  end.

(** [d[k] = f(d[k])] for a key that is present; an absent key leaves the
    dictionary as it is (the program only updates keys it has just
    ensured). *)
Fixpoint dict_update (k : K) (f : V -> V) (d : list (K * V)) : list (K * V) :=
  match d with
  | [] => []
  | (k', v) :: d' =>
      if eqb k k' then (k', f v) :: d' else (k', v) :: dict_update k f d'
  end.

(** [if k not in d: d[k] = v0]. *)
Definition dict_setdefault (k : K) (v0 : V) (d : list (K * V)) : list (K * V) :=
  if dict_mem k d then d else d ++ [(k, v0)].
End Dict.

Definition pair_eqb (a b : string * string) : bool :=
  String.eqb (fst a) (fst b) && String.eqb (snd a) (snd b).

(** [sorted(items, key=lambda i: i[1], reverse=True)]: descending by count,
    entries of equal count keeping their order. *)
Fixpoint insert_desc {K : Type} (x : K * Z) (l : list (K * Z)) : list (K * Z) :=
  match l with
  | [] => [x]
  | y :: l' => if snd x <? snd y then y :: insert_desc x l' else x :: l
  end.

Fixpoint sorted_desc {K : Type} (l : list (K * Z)) : list (K * Z) :=
  match l with
  | [] => []
  | x :: l' => insert_desc x (sorted_desc l')
  end.

(** ** The n-gram counter (lines 19-59) *)

(** A monogram key is a 1-tuple of strings; it is represented by its only
    component. *)
Definition Monogram : Type := string * Z.
Definition Bigram : Type := (string * string) * Z.

Section Counter.
Context {U : Unicode}.

Definition dict_normalize (word : string) : string :=
  lower (normalize_NFC word).

(** [ngrams(tokenized, 2)]: the adjacent pairs. *)
Fixpoint ngrams2 (tokenized : list string) : list (string * string) :=
  match tokenized with
  | a :: (b :: _) as rest => (a, b) :: ngrams2 rest
  | _ => []
  end.

(** Lines 44-49, one monogram. *)
Definition count_monogram (profanity : list string)
    (monograms : list Monogram) (token : string) : list Monogram :=
  let monogram := dict_normalize token in
  if isalpha monogram then
    let monograms := dict_setdefault String.eqb monogram 0 monograms in
    if negb (str_in monogram profanity) then
      dict_update String.eqb monogram (fun c => c + 1) monograms
    else monograms
  else monograms.

(** Lines 51-55, one bigram. *)
Definition count_bigram (profanity : list string)
    (bigrams : list Bigram) (pair : string * string) : list Bigram :=
  let bigram := (dict_normalize (fst pair), dict_normalize (snd pair)) in
  if (isalpha (fst bigram) && isalpha (snd bigram))
     && (negb (str_in (fst bigram) profanity)
         && negb (str_in (snd bigram) profanity)) then
    let bigrams := dict_setdefault pair_eqb bigram 0 bigrams in
    dict_update pair_eqb bigram (fun c => c + 1) bigrams
  else bigrams.

(** Lines 42-55, one line of the input, already tokenized by
    [wordpunct_tokenize]. *)
Definition count_line (profanity : list string)
    (tables : list Monogram * list Bigram) (tokenized : list string)
    : list Monogram * list Bigram :=
  (fold_left (count_monogram profanity) tokenized (fst tables),
   fold_left (count_bigram profanity) (ngrams2 tokenized) (snd tables)).

(** The tables before they are sorted. *)
Definition count_lines (profanity : list string) (input : list (list string))
    : list Monogram * list Bigram :=
  fold_left (count_line profanity) input ([], []).

Definition generate_ngrams (input : list (list string))
    (profanity : option (list string)) : list Monogram * list Bigram :=
  let profanity := match profanity with Some p => p | None => [] end in
  let tables := count_lines profanity input in
  (sorted_desc (fst tables), sorted_desc (snd tables)).
(** What holds of every entry of the monogram table while it is built:
    its key satisfies [P] and is alphabetic, a profane key has count 0 and
    any other key has a positive count. *)
Definition monograms_ok (profanity : list string) (P : string -> Prop)
    (d : list Monogram) : Prop :=
  forall k c, In (k, c) d ->
    P k /\ isalpha k = true
    /\ (str_in k profanity = true -> c = 0)
    /\ (str_in k profanity = false -> 1 <= c).

Definition bigrams_ok (d : list Bigram) : Prop :=
  forall k c, In (k, c) d -> 1 <= c.

(** A line without two adjacent alphabetic tokens. *)
Definition no_alpha_pair (line : list string) : bool :=
  forallb (fun p => negb (isalpha (dict_normalize (fst p))
                          && isalpha (dict_normalize (snd p))))
          (ngrams2 line).
End Counter.

(** ** The wordlist writer (lines 62-116) *)

(** What a call leaves behind: the lines of the output file ([None] when the
    file was never opened) and the exception that ended the call, if any. *)
Record outcome : Type := {
  artifact : option (list string);
  raised : option exn
}.

(** The bytes of the file: every line is written with its newline. *)
Definition file_text (lines : list string) : string :=
  fold_right (fun l acc => l ++ String "010"%char acc)%string EmptyString lines.

Section Writer.
Context {U : Unicode} {F : FloatOps}.
Import Quantizer.
Open Scope string_scope.

Definition HUNSPELL_DICT_PATH : string := "/usr/share/hunspell/".

(** Lines 66-68. *)
Definition lang_code (lang : string) : string :=
  if negb (char_in "_"%char lang) then lower lang ++ "_" ++ upper lang
  else lang.

(** Lines 73-74; [now] is [int(time.time())]. *)
Definition header (lang description : string) (now : Z) : string :=
  "dictionary=main:" ++ lower lang ++ ",locale=" ++ lang
    ++ ",description=" ++ description ++ ",date=" ++ string_of_Z now
    ++ ",version=1".

(** Lines 79-83. *)
Definition group_bigram (bigram_dict : list (string * list (string * Z)))
    (bigram : Bigram) : list (string * list (string * Z)) :=
  let d := dict_setdefault String.eqb (fst (fst bigram)) [] bigram_dict in
  dict_update String.eqb (fst (fst bigram))
    (fun l => (l ++ [(snd (fst bigram), snd bigram)])%list) d.

Definition group_bigrams (bigrams : list Bigram)
    : list (string * list (string * Z)) :=
  fold_left group_bigram bigrams [].

(** [bigram_dict.get(word, [])]. *)
Definition bigram_dict_get (bigram_dict : list (string * list (string * Z)))
    (word : string) : list (string * Z) :=
  match dict_get String.eqb word bigram_dict with
  | Some l => l
  | None => []
  end.

(** Lines 88-95: the surface form of a monogram; [None] is Python's
    [None]. *)
Definition resolve_word (hobj : speller) (key : string) : option string :=
  match hobj key with
  | Some true => Some key
  | Some false =>
      match hobj (capitalize key) with
      | Some true => Some (capitalize key)
      | _ => None
      end
  | None => None
  end.

(** Lines 97-100. *)
Definition monogram_freq (cnt max_monogram_cnt : Z) : result Z :=
  if (cnt =? 0)%Z then Ok 0 else word_cnt_to_freq cnt max_monogram_cnt false.

Definition offensive_suffix (offensive : list string) (word : string) : string :=
  if str_in word offensive then ",possibly_offensive=true" else "".

(** Lines 101-104. *)
Definition word_line (offensive : list string) (word : string) (freq : Z) : string :=
  " " ++ ("word=" ++ word ++ ",f=" ++ string_of_Z freq
          ++ offensive_suffix offensive word).

(** Lines 110-114. *)
Definition bigram_line (offensive : list string) (word : string) (freq : Z) : string :=
  "  " ++ ("bigram=" ++ word ++ ",f=" ++ string_of_Z freq
           ++ offensive_suffix offensive word).

(** Lines 105-116: the lines written for the complements of one word, and
    the exception that stopped the loop, if any. *)
Fixpoint write_bigrams (hobj : speller) (offensive : list string)
    (max_bigram_cnt : Z) (complements : list (string * Z))
    : list string * option exn :=
  match complements with
  | [] => ([], None)
  | (bigram_complement_word, cnt) :: rest =>
      match hobj bigram_complement_word with
      | Some true =>
          match word_cnt_to_freq cnt max_bigram_cnt true with
          | Ok freq =>
              let (ls, e) := write_bigrams hobj offensive max_bigram_cnt rest in
              (bigram_line offensive bigram_complement_word freq :: ls, e)
          | Raise e => ([], Some e)
          end
      | _ => write_bigrams hobj offensive max_bigram_cnt rest
      end
  end.

(** Lines 88-116: one turn of the loop over the monograms. *)
Definition write_monogram (hobj : speller) (offensive : list string)
    (max_monogram_cnt max_bigram_cnt : Z)
    (bigram_dict : list (string * list (string * Z)))
    (monogram : Monogram) : list string * option exn :=
  match resolve_word hobj (fst monogram) with
  | Some word =>
      if String.eqb word "" then ([], None)
      else
        match monogram_freq (snd monogram) max_monogram_cnt with
        | Ok freq =>
            let (ls, e) :=
              write_bigrams hobj offensive max_bigram_cnt
                (bigram_dict_get bigram_dict word) in
            (word_line offensive word freq :: ls, e)
        | Raise e => ([], Some e)
        end
  | None => ([], None)
  end.

(** Lines 87-116. *)
Fixpoint write_monograms (hobj : speller) (offensive : list string)
    (max_monogram_cnt max_bigram_cnt : Z)
    (bigram_dict : list (string * list (string * Z)))
    (monograms : list Monogram) : list string * option exn :=
  match monograms with
  | [] => ([], None)
  | monogram :: rest =>
      match write_monogram hobj offensive max_monogram_cnt max_bigram_cnt
              bigram_dict monogram with
      | (ls, Some e) => (ls, Some e)
      | (ls, None) =>
          let (ls', e) :=
            write_monograms hobj offensive max_monogram_cnt max_bigram_cnt
              bigram_dict rest in
          ((ls ++ ls')%list, e)
      end
  end.

(** [HunSpell dic aff] is the dictionary object opened on the two paths. *)
Definition write_wordlist (HunSpell : string -> string -> speller)
    (now : Z) (monograms : list Monogram) (bigrams : list Bigram)
    (lang description : string) (offensive : option (list string)) : outcome :=
  let offensive := match offensive with Some o => o | None => [] end in
  let hobj := HunSpell (HUNSPELL_DICT_PATH ++ lang_code lang ++ ".dic")
                       (HUNSPELL_DICT_PATH ++ lang_code lang ++ ".aff") in
  match py_max (map snd monograms) with
  | Raise e => {| artifact := None; raised := Some e |}
  | Ok max_monogram_cnt =>
      match py_max (map snd bigrams) with
      | Raise e => {| artifact := None; raised := Some e |}
      | Ok max_bigram_cnt =>
          let bigram_dict := group_bigrams bigrams in
          let (ls, e) :=
            write_monograms hobj offensive max_monogram_cnt max_bigram_cnt
              bigram_dict monograms in
          {| artifact := Some (header lang description now :: ls);
             raised := e |}
      end
  end.

(** Lines 131-149; the input is the list of tokenized lines, the two word
    lists are the stripped lines of their files ([None]: option absent). *)
Definition main (HunSpell : string -> string -> speller) (now : Z)
    (lang : string) (input : list (list string)) (limit : Z)
    (profanity offensive : option (list string)) (description : string)
    : outcome :=
  let m_profanity := match profanity with Some p => p | None => [] end in
  let '(m_monograms, m_bigrams) := generate_ngrams input (Some m_profanity) in
  let bigram_limit := Z.min (5 * 10 ^ 4) limit in
  let m_offensive := match offensive with Some o => o | None => [] end in
  write_wordlist HunSpell now (slice_to m_monograms limit)
    (slice_to m_bigrams bigram_limit) lang description
    (Some (m_offensive ++ m_profanity)%list).
End Writer.

(** ** Measures of the input and shapes of the output *)

Section Measures.
Context {U : Unicode}.

(** How many tokens of the input have the normalized form [tok]. *)
Definition occurrences (tok : string) (input : list (list string)) : Z :=
  Z.of_nat (List.length
              (filter (fun raw => String.eqb (dict_normalize raw) tok)
                      (List.concat input))).

(** How many adjacent pairs of the input have the normalized form [pair]. *)
Definition pair_occurrences (pair : string * string)
    (input : list (list string)) : Z :=
  Z.of_nat (List.length
              (filter (fun q => pair_eqb (dict_normalize (fst q),
                                          dict_normalize (snd q)) pair)
                      (List.concat (map ngrams2 input)))).

(** A table in descending order of count. *)
Definition descending {K : Type} (l : list (K * Z)) : Prop :=
  StronglySorted (fun a b => snd b <= snd a) l.



(** The dictionary object that [write_wordlist] opens for [lang]. *)
Definition hobj_of (HunSpell : string -> string -> speller) (lang : string)
    : speller :=
  HunSpell (HUNSPELL_DICT_PATH ++ lang_code lang ++ ".dic")%string
           (HUNSPELL_DICT_PATH ++ lang_code lang ++ ".aff")%string.

(** The complements that follow the leading token [k] in a bigram list, in
    the order of the list. *)
Definition complements_of (k : string) (bigrams : list Bigram)
    : list (string * Z) :=
  map (fun b : Bigram => (snd (fst b), snd b))
      (filter (fun b : Bigram => String.eqb k (fst (fst b))) bigrams).
End Measures.

(** ** Concrete runs *)

Module Examples.
#[local] Existing Instance AsciiText.unicode.
Open Scope string_scope.

(** A dictionary object that accepts exactly the listed surface forms,
    whatever the paths it was opened on. *)
Definition accepting (forms : list string) : string -> string -> speller :=
  fun _ _ w => Some (str_in w forms).

(** A proper noun is accepted only with its capital. *)
Definition english : string -> string -> speller :=
  accepting ["Paris"; "is"; "visit"].

Definition paris_monograms : list Monogram := [("paris", 2); ("is", 2)].
Definition paris_bigrams : list Bigram := [(("paris", "is"), 2)].

Definition visit_monograms : list Monogram := [("visit", 2); ("paris", 2)].
Definition visit_bigrams : list Bigram := [(("visit", "paris"), 2)].

(** German nouns are accepted only with their capital. *)
Definition german : string -> string -> speller :=
  accepting ["Arsch"; "guten"; "morgen"].

Definition german_input : list (list string) :=
  [["arsch"]; ["guten"; "morgen"]; ["guten"; "morgen"]].

Definition cat_input : list (list string) :=
  [["the"; "cat"; "sat"; "."]; ["the"; "damn"; "cat"; "ran"; "."]].

(** One word per line: no adjacent pair. *)
Definition single_word_input : list (list string) :=
  [["hello"]; ["hello"]; ["world"]].
End Examples.

(** ** Facts about rounding and the logarithm *)

Section RoundFacts.
Import ExactArith.
Open Scope R_scope.

Lemma Int_part_bounds (x : R) : IZR (Int_part x) <= x < IZR (Int_part x) + 1.
Proof.
  destruct (base_Int_part x) as [H1 H2]. lra.
Qed.

Lemma frac_part_eq (x : R) : frac_part x = x - IZR (Int_part x).
Proof. reflexivity. Qed.

Lemma py_round_floor (x : R) :
  (Int_part x <= py_round x <= Int_part x + 1)%Z.
Proof.
  unfold py_round.
  destruct (Rlt_dec _ _); [lia|].
  destruct (Rlt_dec _ _); [lia|].
  destruct (Z.even _); lia.
Qed.

Lemma Int_part_IZR (n : Z) : Int_part (IZR n) = n.
Proof.
  symmetry. apply Int_part_spec. lra.
Qed.

Lemma py_round_IZR (n : Z) : py_round (IZR n) = n.
Proof.
  unfold py_round. rewrite frac_part_eq, Int_part_IZR.
  destruct (Rlt_dec _ _) as [_|H]; [reflexivity|].
  exfalso. apply H. lra.
Qed.

Lemma Int_part_mono (x y : R) : x <= y -> (Int_part x <= Int_part y)%Z.
Proof.
  intros Hxy.
  destruct (Int_part_bounds x) as [Hx1 Hx2].
  destruct (Int_part_bounds y) as [Hy1 Hy2].
  destruct (Z_le_gt_dec (Int_part x) (Int_part y)) as [H|H]; [exact H|].
  exfalso.
  assert (Int_part y + 1 <= Int_part x)%Z as H' by lia.
  apply IZR_le in H'. rewrite plus_IZR in H'. lra.
Qed.

Lemma py_round_mono (x y : R) : x <= y -> (py_round x <= py_round y)%Z.
Proof.
  intros Hxy.
  pose proof (Int_part_mono x y Hxy) as Hfl.
  destruct (Z.eq_dec (Int_part x) (Int_part y)) as [E|NE].
  - unfold py_round. rewrite !frac_part_eq, <- E.
    set (n := Int_part x).
    destruct (Rlt_dec (x - IZR n) (1 / 2)) as [Hx|Hx].
    + destruct (Rlt_dec (y - IZR n) (1 / 2)); [lia|].
      destruct (Rlt_dec (1 / 2) (y - IZR n)); [lia|].
      destruct (Z.even n); lia.
    + destruct (Rlt_dec (y - IZR n) (1 / 2)) as [Hy|Hy]; [exfalso; lra|].
      destruct (Rlt_dec (1 / 2) (x - IZR n)) as [Hx'|Hx'].
      * destruct (Rlt_dec (1 / 2) (y - IZR n)) as [Hy'|Hy']; [lia|].
        exfalso; lra.
      * destruct (Rlt_dec (1 / 2) (y - IZR n)) as [Hy'|Hy'].
        -- destruct (Z.even n); lia.
        -- lia.
  - pose proof (py_round_floor x). pose proof (py_round_floor y). lia.
Qed.

Lemma py_round_between (a b : Z) (x : R) :
  IZR a <= x <= IZR b -> (a <= py_round x <= b)%Z.
Proof.
  intros [Ha Hb]. split.
  - rewrite <- (py_round_IZR a). now apply py_round_mono.
  - rewrite <- (py_round_IZR b). now apply py_round_mono.
Qed.

Lemma ln_base_pos : 0 < ln log_base.
Proof.
  rewrite <- ln_1. apply ln_increasing; unfold log_base; lra.
Qed.

Lemma ln_IZR_nonneg (c : Z) : (1 <= c)%Z -> 0 <= ln (IZR c).
Proof.
  intros Hc. apply IZR_le in Hc.
  destruct (Req_dec (IZR c) 1) as [E|NE].
  - rewrite E, ln_1. lra.
  - left. rewrite <- ln_1. apply ln_increasing; lra.
Qed.

Lemma ln_IZR_pos (m : Z) : (2 <= m)%Z -> 0 < ln (IZR m).
Proof.
  intros Hm. apply IZR_le in Hm.
  rewrite <- ln_1. apply ln_increasing; lra.
Qed.

Lemma ln_IZR_mono (c1 c2 : Z) :
  (1 <= c1)%Z -> (c1 <= c2)%Z -> ln (IZR c1) <= ln (IZR c2).
Proof.
  intros H1 H12.
  destruct (Z.eq_dec c1 c2) as [->|NE]; [lra|].
  left. apply ln_increasing.
  - apply IZR_lt. lia.
  - apply IZR_lt. lia.
Qed.

End RoundFacts.

(** The exact arithmetic satisfies the laws. *)
Lemma exact_laws : FloatLaws ExactArith.ops.
Proof.
  pose proof ln_base_pos as Hb.
  constructor; simpl.
  - destruct (Req_dec_T (IZR 0) 0) as [_|NE]; [reflexivity|].
    exfalso. apply NE. reflexivity.
  - intros x Hx. destruct (Req_dec_T x 0) as [E|_]; [|reflexivity].
    exfalso. lra.
  - rewrite ln_1. unfold Rdiv. apply Rmult_0_l.
  - intros n Hn. apply Rdiv_lt_0_compat; [now apply ln_IZR_pos|exact Hb].
  - intros a b Ha Hab. unfold Rdiv. apply Rmult_le_compat_r.
    + left. now apply Rinv_0_lt_compat.
    + now apply ln_IZR_mono.
  - intros d Hd. unfold Rdiv. apply Rinv_r. lra.
  - intros d Hd. unfold Rdiv. apply Rmult_0_l.
  - intros x y d Hd Hxy. unfold Rdiv. apply Rmult_le_compat_r; [|exact Hxy].
    left. now apply Rinv_0_lt_compat.
  - intros a b _ _. symmetry. apply mult_IZR.
  - intros k x y [Hk _] Hxy. apply Rmult_le_compat_l; [|exact Hxy].
    left. now apply (IZR_lt 0).
  - intros a b _ _. symmetry. apply plus_IZR.
  - intros k x y _ Hxy. now apply Rplus_le_compat_r.
  - intros n _. apply py_round_IZR.
  - intros x y. apply py_round_mono.
Qed.

(** ** The quantizer: range, top of the range, monotonicity *)

Section QuantizerFacts.
Import Quantizer.
Context {F : FloatOps} {L : FloatLaws F}.

Lemma math_log_pos (x : Z) : 1 <= x -> math_log x = Ok (log115 x).
Proof.
  intros Hx. unfold math_log.
  destruct (Z.leb_spec x 0) as [H|_]; [lia|reflexivity].
Qed.

Lemma math_log_nonpos (x : Z) : x <= 0 -> math_log x = Raise ValueError.
Proof.
  intros Hx. unfold math_log.
  destruct (Z.leb_spec x 0) as [_|H]; [reflexivity|lia].
Qed.

(** With a positive count and a maximum of at least two the quantizer
    returns. *)
Lemma word_cnt_to_freq_returns (c m : Z) (b : bool) :
  1 <= c -> 2 <= m ->
  word_cnt_to_freq c m b = Ok (round_int (scaled b (log_quotient c m))).
Proof.
  intros Hc Hm. unfold word_cnt_to_freq.
  rewrite (math_log_pos c Hc), (math_log_pos m) by lia. cbn [bind].
  unfold float_div.
  rewrite (positive_not_zero _ (log115_positive m Hm)). cbn [bind].
  destruct b; reflexivity.
Qed.

(** The quantizer itself has no case for a zero count: the logarithm
    raises. *)
Lemma word_cnt_to_freq_zero_raises (m : Z) (b : bool) :
  word_cnt_to_freq 0 m b = Raise ValueError.
Proof.
  unfold word_cnt_to_freq. rewrite (math_log_nonpos 0) by lia. reflexivity.
Qed.

(** A maximum of one makes the divisor zero. *)
Lemma word_cnt_to_freq_max_one (c : Z) (b : bool) :
  1 <= c -> word_cnt_to_freq c 1 b = Raise ZeroDivisionError.
Proof.
  intros Hc. unfold word_cnt_to_freq.
  rewrite (math_log_pos c Hc), (math_log_pos 1) by lia. cbn [bind].
  unfold float_div. rewrite log115_one, is_zero_zero. reflexivity.
Qed.



Lemma log_quotient_top (m : Z) : 2 <= m -> log_quotient m m = of_int 1.
Proof.
  intros Hm. unfold log_quotient. apply fdiv_self. now apply log115_positive.
Qed.

Lemma log_quotient_one (m : Z) : 2 <= m -> log_quotient 1 m = of_int 0.
Proof.
  intros Hm. unfold log_quotient. rewrite log115_one.
  apply fdiv_zero. now apply log115_positive.
Qed.


Ltac unfold_scaled :=
  unfold scaled, MONOGRAM_SPACE;
  change (255 - 175 - 1) with 79; change (175 - 1) with 174.


Lemma scaled_bottom (b : bool) :
  scaled b (of_int 0) = of_int (if b then 176 else 1).
Proof.
  unfold_scaled. destruct b.
  - rewrite fmul_small, !fadd_small by lia. reflexivity.
  - rewrite fmul_small, fadd_small by lia. reflexivity.
Qed.

Lemma scaled_top (b : bool) :
  scaled b (of_int 1) = of_int (if b then 255 else 175).
Proof.
  unfold_scaled. destruct b.
  - rewrite fmul_small, !fadd_small by lia. reflexivity.
  - rewrite fmul_small, fadd_small by lia. reflexivity.
Qed.


Lemma word_cnt_to_freq_top (m : Z) (b : bool) :
  2 <= m -> word_cnt_to_freq m m b = Ok (if b then 255 else 175).
Proof.
  intros Hm. rewrite word_cnt_to_freq_returns by lia.
  rewrite log_quotient_top, scaled_top, round_of_int
    by (assumption || destruct b; lia).
  reflexivity.
Qed.



End QuantizerFacts.

(** ** Dictionaries and sorting *)

Lemma fold_left_invariant {A B : Type} (f : A -> B -> A) (P : A -> Prop)
    (Q : B -> Prop) (l : list B) :
  (forall a b, P a -> Q b -> P (f a b)) ->
  (forall b, In b l -> Q b) ->
  forall a, P a -> P (fold_left f l a).
Proof.
  intros Hstep. induction l as [|b l IH]; intros HQ a Ha; simpl.
  - exact Ha.
  - apply IH.
    + intros b' Hb'. apply HQ. now right.
    + apply Hstep; [exact Ha|]. apply HQ. now left.
Qed.

Lemma pair_eqb_eq (a b : string * string) : pair_eqb a b = true <-> a = b.
Proof.
  destruct a as [a1 a2], b as [b1 b2]. unfold pair_eqb. simpl.
  rewrite andb_true_iff, !String.eqb_eq. split.
  - intros [-> ->]. reflexivity.
  - intros E. inversion E. split; reflexivity.
Qed.

Section DictFacts.
Context {K V : Type} (eqb : K -> K -> bool).
Hypothesis eqb_eq : forall a b, eqb a b = true <-> a = b.

Lemma dict_mem_In (k : K) (d : list (K * V)) :
  dict_mem eqb k d = true <-> exists v, In (k, v) d.
Proof.
  induction d as [|[k' v'] d IH]; simpl.
  - split; [discriminate|]. intros [v []].
  - rewrite orb_true_iff, IH, eqb_eq. split.
    + intros [->|[v Hv]]; [exists v'; now left|exists v; now right].
    + intros [v [E|Hv]]; [left; now inversion E|right; now exists v].
Qed.

Lemma dict_update_absent (k : K) (f : V -> V) (d : list (K * V)) :
  dict_mem eqb k d = false -> dict_update eqb k f d = d.
Proof.
  induction d as [|[k' v'] d IH]; simpl; [reflexivity|].
  intros H. apply orb_false_iff in H as [H1 H2].
  rewrite H1, IH by exact H2. reflexivity.
Qed.

Lemma dict_update_app_absent (k : K) (f : V -> V) (d l : list (K * V)) :
  dict_mem eqb k d = false ->
  dict_update eqb k f (d ++ l) = d ++ dict_update eqb k f l.
Proof.
  induction d as [|[k' v'] d IH]; simpl; [reflexivity|].
  intros H. apply orb_false_iff in H as [H1 H2].
  rewrite H1, IH by exact H2. reflexivity.
Qed.

(** An entry of an updated dictionary is an old entry or the image of an
    old entry of the updated key. *)
Lemma dict_update_In (k : K) (f : V -> V) (d : list (K * V)) (k' : K) (v : V) :
  In (k', v) (dict_update eqb k f d) ->
  In (k', v) d \/ (k' = k /\ exists v0, In (k, v0) d /\ v = f v0).
Proof.
  induction d as [|[k1 v1] d IH]; simpl; [tauto|].
  destruct (eqb k k1) eqn:E.
  - apply eqb_eq in E. subst k1. intros [H|H].
    + inversion H; subst. right. split; [reflexivity|].
      exists v1. split; [now left|reflexivity].
    + left. now right.
  - intros [H|H]; [left; now left|].
    destruct (IH H) as [H'|[-> [v0 [H0 ->]]]].
    + left. now right.
    + right. split; [reflexivity|]. exists v0. split; [now right|reflexivity].
Qed.

Lemma dict_update_keys (k : K) (f : V -> V) (d : list (K * V)) (k' : K) :
  dict_mem eqb k' (dict_update eqb k f d) = dict_mem eqb k' d.
Proof.
  induction d as [|[k1 v1] d IH]; simpl; [reflexivity|].
  destruct (eqb k k1); simpl; [reflexivity|]. now rewrite IH.
Qed.

Lemma dict_mem_app (k : K) (d l : list (K * V)) :
  dict_mem eqb k (d ++ l) = dict_mem eqb k d || dict_mem eqb k l.
Proof.
  induction d as [|[k1 v1] d IH]; simpl; [reflexivity|].
  now rewrite IH, orb_assoc.
Qed.

(** [if k not in d: d[k] = v0] followed by [d[k] = f(d[k])]. *)
Lemma setdefault_update_In (k : K) (v0 : V) (f : V -> V) (d : list (K * V))
    (k' : K) (v : V) :
  In (k', v) (dict_update eqb k f (dict_setdefault eqb k v0 d)) ->
  In (k', v) d
  \/ (k' = k /\ v = f v0)
  \/ (k' = k /\ exists v1, In (k, v1) d /\ v = f v1).
Proof.
  unfold dict_setdefault. destruct (dict_mem eqb k d) eqn:M.
  - intros H. apply dict_update_In in H. tauto.
  - rewrite dict_update_app_absent by exact M. simpl.
    assert (eqb k k = true) as -> by now apply eqb_eq.
    intros H. apply in_app_or in H as [H|[H|[]]].
    + now left.
    + inversion H; subst. right. left. split; reflexivity.
Qed.

Lemma setdefault_In (k : K) (v0 : V) (d : list (K * V)) (k' : K) (v : V) :
  In (k', v) (dict_setdefault eqb k v0 d) ->
  In (k', v) d \/ (k' = k /\ v = v0).
Proof.
  unfold dict_setdefault. destruct (dict_mem eqb k d).
  - now left.
  - intros H. apply in_app_or in H as [H|[H|[]]]; [now left|].
    inversion H; subst. right. split; reflexivity.
Qed.

Lemma setdefault_keys (k : K) (v0 : V) (d : list (K * V)) (k' : K) :
  dict_mem eqb k' (dict_setdefault eqb k v0 d)
  = dict_mem eqb k' d || eqb k' k.
Proof.
  unfold dict_setdefault. destruct (dict_mem eqb k d) eqn:M.
  - destruct (eqb k' k) eqn:E; [|now rewrite orb_false_r].
    apply eqb_eq in E. subst k'. now rewrite M.
  - rewrite dict_mem_app. simpl. now rewrite orb_false_r.
Qed.
End DictFacts.

Lemma insert_desc_In {K : Type} (x y : K * Z) (l : list (K * Z)) :
  In y (insert_desc x l) <-> y = x \/ In y l.
Proof.
  induction l as [|z l IH]; simpl.
  - split; [intros [H|[]]; left; now symmetry|intros [H|[]]; left; now symmetry].
  - destruct (snd x <? snd z); simpl.
    + rewrite IH. tauto.
    + split; [intros [H|H]; [left; now symmetry|now right]|].
      intros [H|H]; [left; now symmetry|now right].
Qed.

Lemma sorted_desc_In {K : Type} (y : K * Z) (l : list (K * Z)) :
  In y (sorted_desc l) <-> In y l.
Proof.
  induction l as [|x l IH]; simpl; [tauto|].
  rewrite insert_desc_In, IH. split; intros [H|H]; auto.
Qed.

(** ** The counting phase *)

Section CounterFacts.
Context {U : Unicode}.
Variable profanity : list string.

Lemma count_monogram_ok (P : string -> Prop) (d : list Monogram) (token : string) :
  P (dict_normalize token) ->
  monograms_ok profanity P d -> monograms_ok profanity P (count_monogram profanity d token).
Proof.
  intros HP Hd. unfold count_monogram.
  destruct (isalpha (dict_normalize token)) eqn:A; [|exact Hd].
  destruct (str_in (dict_normalize token) profanity) eqn:S; simpl; intros k c H.
  - apply (setdefault_In String.eqb) in H as [H|[-> ->]].
    + now apply Hd.
    + repeat split; auto. congruence.
  - apply (setdefault_update_In String.eqb String.eqb_eq) in H
      as [H|[[-> ->]|[-> [c1 [H ->]]]]].
    + now apply Hd.
    + repeat split; auto; [congruence|lia].
    + destruct (Hd _ _ H) as (_ & _ & _ & Hc). specialize (Hc S).
      repeat split; auto; [congruence|lia].
Qed.

Lemma count_bigram_ok (d : list Bigram) (pair : string * string) :
  bigrams_ok d -> bigrams_ok (count_bigram profanity d pair).
Proof.
  intros Hd. unfold count_bigram.
  destruct (_ && _); [|exact Hd]. simpl. intros k c H.
  apply (setdefault_update_In pair_eqb pair_eqb_eq) in H
    as [H|[[-> ->]|[-> [c1 [H ->]]]]].
  - now apply (Hd k).
  - lia.
  - specialize (Hd _ _ H). lia.
Qed.

Lemma count_line_ok (P : string -> Prop) (t : list Monogram * list Bigram)
    (line : list string) :
  (forall raw, In raw line -> P (dict_normalize raw)) ->
  monograms_ok profanity P (fst t) /\ bigrams_ok (snd t) ->
  monograms_ok profanity P (fst (count_line profanity t line))
  /\ bigrams_ok (snd (count_line profanity t line)).
Proof.
  intros HP [Hm Hb]. unfold count_line. simpl. split.
  - apply (fold_left_invariant _ (monograms_ok profanity P)
             (fun raw => P (dict_normalize raw))); auto.
    intros a b Ha Hb'. now apply count_monogram_ok.
  - apply (fold_left_invariant _ bigrams_ok (fun _ => True)); auto.
    intros a b Ha _. now apply count_bigram_ok.
Qed.

Lemma count_lines_ok (P : string -> Prop) (input : list (list string)) :
  (forall line raw, In line input -> In raw line -> P (dict_normalize raw)) ->
  monograms_ok profanity P (fst (count_lines profanity input))
  /\ bigrams_ok (snd (count_lines profanity input)).
Proof.
  intros HP. unfold count_lines.
  apply (fold_left_invariant _
           (fun t => monograms_ok profanity P (fst t) /\ bigrams_ok (snd t))
           (fun line => forall raw, In raw line -> P (dict_normalize raw))).
  - intros t line Ht Hline. now apply count_line_ok.
  - intros line Hin raw Hraw. now apply (HP line).
  - split; intros k c [].
Qed.

(** Keys are never removed, and an alphabetic token gets its key. *)
Lemma count_monogram_keeps (d : list Monogram) (token k : string) :
  dict_mem String.eqb k d = true ->
  dict_mem String.eqb k (count_monogram profanity d token) = true.
Proof.
  intros H. unfold count_monogram.
  destruct (isalpha _); [|exact H].
  destruct (negb _); simpl.
  - rewrite dict_update_keys, (setdefault_keys _ String.eqb_eq), H.
    reflexivity.
  - rewrite (setdefault_keys _ String.eqb_eq), H. reflexivity.
Qed.

Lemma count_monogram_adds (d : list Monogram) (token : string) :
  isalpha (dict_normalize token) = true ->
  dict_mem String.eqb (dict_normalize token)
    (count_monogram profanity d token) = true.
Proof.
  intros A. unfold count_monogram. rewrite A.
  destruct (negb _); simpl.
  - rewrite dict_update_keys, (setdefault_keys _ String.eqb_eq),
      String.eqb_refl. apply orb_true_r.
  - rewrite (setdefault_keys _ String.eqb_eq), String.eqb_refl.
    apply orb_true_r.
Qed.

Lemma fold_count_monogram_keeps (line : list string) (d : list Monogram)
    (k : string) :
  dict_mem String.eqb k d = true ->
  dict_mem String.eqb k (fold_left (count_monogram profanity) line d) = true.
Proof.
  revert d. induction line as [|t line IH]; intros d H; simpl; [exact H|].
  apply IH. now apply count_monogram_keeps.
Qed.

Lemma fold_count_monogram_adds (line : list string) (d : list Monogram)
    (raw : string) :
  In raw line -> isalpha (dict_normalize raw) = true ->
  dict_mem String.eqb (dict_normalize raw)
    (fold_left (count_monogram profanity) line d) = true.
Proof.
  revert d. induction line as [|t line IH]; intros d Hin A; simpl;
    [destruct Hin|destruct Hin as [E|Hin]].
  - subst t. apply fold_count_monogram_keeps. now apply count_monogram_adds.
  - now apply IH.
Qed.

Lemma fold_count_line_keeps (input : list (list string))
    (t : list Monogram * list Bigram) (k : string) :
  dict_mem String.eqb k (fst t) = true ->
  dict_mem String.eqb k
    (fst (fold_left (count_line profanity) input t)) = true.
Proof.
  revert t. induction input as [|l input IH]; intros t H; simpl; [exact H|].
  apply IH. simpl. now apply fold_count_monogram_keeps.
Qed.

Lemma fold_count_line_adds (input : list (list string))
    (t : list Monogram * list Bigram) (line : list string) (raw : string) :
  In line input -> In raw line -> isalpha (dict_normalize raw) = true ->
  dict_mem String.eqb (dict_normalize raw)
    (fst (fold_left (count_line profanity) input t)) = true.
Proof.
  revert t. induction input as [|l input IH]; intros t Hin Hraw A; simpl;
    [destruct Hin|destruct Hin as [E|Hin]].
  - subst l. apply fold_count_line_keeps. simpl.
    now apply fold_count_monogram_adds.
  - now apply IH.
Qed.

(** Without two adjacent alphabetic tokens no bigram is created. *)
Lemma fold_count_bigram_nil (pairs : list (string * string)) :
  forallb (fun p => negb (isalpha (dict_normalize (fst p))
                          && isalpha (dict_normalize (snd p)))) pairs = true ->
  fold_left (count_bigram profanity) pairs [] = [].
Proof.
  induction pairs as [|p pairs IH]; simpl; [reflexivity|].
  intros H. apply andb_true_iff in H as [H1 H2].
  unfold count_bigram at 2. simpl.
  apply negb_true_iff in H1. rewrite H1. simpl. now apply IH.
Qed.

Lemma count_lines_no_bigram (input : list (list string)) :
  forallb no_alpha_pair input = true ->
  snd (count_lines profanity input) = [].
Proof.
  unfold count_lines.
  assert (forall t, snd t = [] -> forallb no_alpha_pair input = true ->
                    snd (fold_left (count_line profanity) input t) = [])
    as H.
  { induction input as [|l input IH]; intros t Ht Hall; simpl; [exact Ht|].
    simpl in Hall. apply andb_true_iff in Hall as [H1 H2].
    apply IH; [|exact H2]. simpl. rewrite Ht.
    now apply fold_count_bigram_nil. }
  intros Hall. now apply H.
Qed.
End CounterFacts.

(** ** The writer *)

Section WriterFacts.
Context {U : Unicode} {F : FloatOps}.

Lemma slice_to_nil {A : Type} (n : Z) : slice_to (@nil A) n = [].
Proof.
  unfold slice_to. destruct (n <? 0); apply firstn_nil.
Qed.

Lemma slice_to_zero {A : Type} (l : list A) : slice_to l 0 = [].
Proof. reflexivity. Qed.

(** [max()] of an empty list ends the call before the file is opened. *)
Lemma write_wordlist_empty (HunSpell : string -> string -> speller) (now : Z)
    (monograms : list Monogram) (bigrams : list Bigram)
    (lang description : string) (offensive : option (list string)) :
  monograms = [] \/ bigrams = [] ->
  write_wordlist HunSpell now monograms bigrams lang description offensive
  = {| artifact := None; raised := Some ValueError |}.
Proof.
  intros [-> | ->]; unfold write_wordlist; simpl; [reflexivity|].
  destruct (py_max (map snd monograms)) as [m|e] eqn:E; [reflexivity|].
  destruct monograms; simpl in E; [|discriminate].
  inversion E. reflexivity.
Qed.

(** The output depends on the dictionary object only through its answers
    and on the offensive set only through membership. *)
Lemma write_bigrams_ext (hobj1 hobj2 : speller) (off1 off2 : list string)
    (max_bigram_cnt : Z) (complements : list (string * Z)) :
  (forall w, hobj1 w = hobj2 w) ->
  (forall w, str_in w off1 = str_in w off2) ->
  write_bigrams hobj1 off1 max_bigram_cnt complements
  = write_bigrams hobj2 off2 max_bigram_cnt complements.
Proof.
  intros Hh Ho. induction complements as [|[w c] rest IH]; simpl;
    [reflexivity|].
  rewrite <- Hh. destruct (hobj1 w) as [[|]|]; auto.
  destruct (Quantizer.word_cnt_to_freq c max_bigram_cnt true); auto.
  rewrite IH. unfold bigram_line, offensive_suffix. now rewrite Ho.
Qed.

Lemma resolve_word_ext (hobj1 hobj2 : speller) (key : string) :
  (forall w, hobj1 w = hobj2 w) ->
  resolve_word hobj1 key = resolve_word hobj2 key.
Proof.
  intros Hh. unfold resolve_word. now rewrite !Hh.
Qed.

Lemma write_monogram_ext (hobj1 hobj2 : speller) (off1 off2 : list string)
    (mm mb : Z) (bd : list (string * list (string * Z))) (m : Monogram) :
  (forall w, hobj1 w = hobj2 w) ->
  (forall w, str_in w off1 = str_in w off2) ->
  write_monogram hobj1 off1 mm mb bd m = write_monogram hobj2 off2 mm mb bd m.
Proof.
  intros Hh Ho. unfold write_monogram.
  rewrite (resolve_word_ext hobj1 hobj2 _ Hh).
  destruct (resolve_word hobj2 (fst m)) as [word|]; [|reflexivity].
  destruct (String.eqb word ""); [reflexivity|].
  destruct (monogram_freq (snd m) mm); [|reflexivity].
  rewrite (write_bigrams_ext hobj1 hobj2 off1 off2 _ _ Hh Ho).
  unfold word_line, offensive_suffix. now rewrite Ho.
Qed.

Lemma write_monograms_ext (hobj1 hobj2 : speller) (off1 off2 : list string)
    (mm mb : Z) (bd : list (string * list (string * Z)))
    (ms : list Monogram) :
  (forall w, hobj1 w = hobj2 w) ->
  (forall w, str_in w off1 = str_in w off2) ->
  write_monograms hobj1 off1 mm mb bd ms
  = write_monograms hobj2 off2 mm mb bd ms.
Proof.
  intros Hh Ho. induction ms as [|m ms IH]; simpl; [reflexivity|].
  rewrite (write_monogram_ext hobj1 hobj2 off1 off2 _ _ _ _ Hh Ho), IH.
  reflexivity.
Qed.
(** The word path (lines 88-95): the lowercase form is tried first and the
    capitalized form only after the lowercase form was rejected. *)
Lemma resolve_word_spec (hobj : speller) (key word : string) :
  resolve_word hobj key = Some word <->
  (hobj key = Some true /\ word = key)
  \/ (hobj key = Some false /\ hobj (capitalize key) = Some true
      /\ word = capitalize key).
Proof.
  unfold resolve_word. destruct (hobj key) as [[|]|].
  - split.
    + intros E. inversion E. left. split; reflexivity.
    + intros [[_ ->]|[E _]]; [reflexivity|discriminate E].
  - destruct (hobj (capitalize key)) as [[|]|]; split;
      try discriminate;
      try (intros [[E _]|(_ & E & _)]; discriminate E).
    + intros E. inversion E. right. repeat split; reflexivity.
    + intros [[E _]|(_ & _ & ->)]; [discriminate E|reflexivity].
  - split; [discriminate|].
    intros [[E _]|[E _]]; discriminate E.
Qed.

(** A monogram of count 0 whose word resolves gets the word line with
    score 0, whatever the two maxima are. *)
Lemma write_monogram_zero_count (hobj : speller) (offensive : list string)
    (max_monogram_cnt max_bigram_cnt : Z)
    (bigram_dict : list (string * list (string * Z))) (key word : string) :
  resolve_word hobj key = Some word -> word <> EmptyString ->
  exists ls e,
    write_monogram hobj offensive max_monogram_cnt max_bigram_cnt bigram_dict
      (key, 0)
    = (word_line offensive word 0 :: ls, e).
Proof.
  intros R NE. unfold write_monogram. simpl. rewrite R.
  destruct (String.eqb_spec word EmptyString) as [E|_]; [contradiction|].
  destruct (write_bigrams hobj offensive max_bigram_cnt
              (bigram_dict_get bigram_dict word)) as [ls e].
  exists ls, e. reflexivity.
Qed.
End WriterFacts.

(** ** The claims *)

Section Claims.
Import Quantizer.
Context {F : FloatOps} {L : FloatLaws F}.


(** C5.  A zero count is scored 0 unconditionally, for every maximum: the
    writer does not call the quantizer for it (lines 97-98), and a monogram
    of count 0 whose word resolves gets the word line with [f=0]. *)
Theorem C5_zero_count_scores_zero {U : Unicode} (max_count : Z) :
  monogram_freq 0 max_count = Ok 0
  /\ (forall (offensive : list string) (word : string),
        word_line offensive word 0
        = (" word=" ++ word ++ ",f=0"
           ++ offensive_suffix offensive word)%string)
  /\ (forall hobj offensive max_bigram_cnt bigram_dict key word,
        resolve_word hobj key = Some word -> word <> EmptyString ->
        exists ls e,
          write_monogram hobj offensive max_count max_bigram_cnt bigram_dict
            (key, 0)
          = (word_line offensive word 0 :: ls, e)).
Proof.
  split; [reflexivity|]. split; [reflexivity|].
  intros. now apply write_monogram_zero_count.
Qed.


(** C7.  In the monogram table that [generate_ngrams] returns, an entry has
    count 0 exactly when its token is in the profanity set, an entry of any
    other token has a count of at least 1, every entry is the normalized
    form of an alphabetic token of the input (a token never seen has no
    entry), every alphabetic token of the input has an entry, and every
    entry of the bigram table has a count of at least 1. *)
Theorem C7_counting_invariant {U : Unicode} (input : list (list string))
    (profanity : option (list string)) :
  let profane tok :=
    str_in tok (match profanity with Some p => p | None => [] end) in
  (forall tok cnt, In (tok, cnt) (fst (generate_ngrams input profanity)) ->
     (cnt = 0 <-> profane tok = true)
     /\ (profane tok = false -> 1 <= cnt)
     /\ isalpha tok = true
     /\ exists line raw,
          In line input /\ In raw line /\ tok = dict_normalize raw)
  /\ (forall line raw,
        In line input -> In raw line -> isalpha (dict_normalize raw) = true ->
        exists cnt,
          In (dict_normalize raw, cnt) (fst (generate_ngrams input profanity)))
  /\ (forall pair cnt,
        In (pair, cnt) (snd (generate_ngrams input profanity)) -> 1 <= cnt).
Proof.
  intros profane. unfold generate_ngrams. simpl.
  set (prof := match profanity with Some p => p | None => [] end) in *.
  set (seen := fun k => exists line raw,
                 In line input /\ In raw line /\ k = dict_normalize raw).
  destruct (count_lines_ok prof seen input) as [Hm Hb].
  { intros line raw Hl Hr. exists line, raw. auto. }
  split; [|split].
  - intros tok cnt H. apply (proj1 (sorted_desc_In _ _)) in H.
    destruct (Hm _ _ H) as (S & A & H0 & H1).
    split; [split|split; [|split]].
    + intros ->. destruct (profane tok) eqn:E; [reflexivity|].
      specialize (H1 E). lia.
    + exact H0.
    + exact H1.
    + exact A.
    + exact S.
  - intros line raw Hl Hr A.
    pose proof (fold_count_line_adds prof input ([], []) line raw Hl Hr A) as M.
    apply (dict_mem_In String.eqb String.eqb_eq) in M as [cnt M].
    exists cnt. apply (proj2 (sorted_desc_In _ _)). exact M.
  - intros pair cnt H. apply (proj1 (sorted_desc_In _ _)) in H.
    now apply (Hb pair).
Qed.

(** C9.  Two runs of [write_wordlist] on the same tables, language,
    description and timestamp, with dictionary objects that give the same
    answers and offensive sets that have the same members, end the same way
    and leave the same file, byte for byte. *)
Theorem C9_write_wordlist_deterministic {U : Unicode}
    (HunSpell1 HunSpell2 : string -> string -> speller) (now : Z)
    (monograms : list Monogram) (bigrams : list Bigram)
    (lang description : string) (offensive1 offensive2 : option (list string)) :
  (forall dic aff w, HunSpell1 dic aff w = HunSpell2 dic aff w) ->
  (forall w, str_in w (match offensive1 with Some o => o | None => [] end)
             = str_in w (match offensive2 with Some o => o | None => [] end)) ->
  let run1 := write_wordlist HunSpell1 now monograms bigrams lang description
                offensive1 in
  let run2 := write_wordlist HunSpell2 now monograms bigrams lang description
                offensive2 in
  run1 = run2
  /\ option_map file_text (artifact run1) = option_map file_text (artifact run2).
Proof.
  intros Hh Ho run1 run2.
  assert (run1 = run2) as E.
  { unfold run1, run2, write_wordlist.
    destruct (py_max (map snd monograms)); [|reflexivity].
    destruct (py_max (map snd bigrams)); [|reflexivity].
    rewrite (write_monograms_ext _ _ _ _ _ _ _ _ (Hh _ _) Ho). reflexivity. }
  split; [exact E|]. now rewrite E.
Qed.

(** C10.  If the monogram list or the bigram list passed to
    [write_wordlist] is empty, the call ends with [ValueError] and the output
    file is never opened; in particular a run on an input without two
    adjacent alphabetic tokens leaves no file. *)
Theorem C10_empty_list_no_artifact {U : Unicode}
    (HunSpell : string -> string -> speller) (now : Z)
    (lang description : string) :
  (forall monograms bigrams offensive,
     monograms = [] \/ bigrams = [] ->
     write_wordlist HunSpell now monograms bigrams lang description offensive
     = {| artifact := None; raised := Some ValueError |})
  /\ (forall input limit profanity offensive,
        forallb no_alpha_pair input = true ->
        main HunSpell now lang input limit profanity offensive description
        = {| artifact := None; raised := Some ValueError |}).
Proof.
  split.
  - intros. now apply write_wordlist_empty.
  - intros input limit profanity offensive H. unfold main, generate_ngrams.
    rewrite (count_lines_no_bigram _ input H). simpl sorted_desc.
    rewrite slice_to_nil. apply write_wordlist_empty. now right.
Qed.

(** C4 (amended).  With the entry limit 0 both lists passed to
    [write_wordlist] are empty: the run ends with [ValueError] at the first
    [max()] and leaves no output file, not even the header line. *)
Theorem C4_limit_zero_no_artifact {U : Unicode}
    (HunSpell : string -> string -> speller) (now : Z) (lang : string)
    (input : list (list string)) (profanity offensive : option (list string))
    (description : string) :
  main HunSpell now lang input 0 profanity offensive description
  = {| artifact := None; raised := Some ValueError |}.
Proof.
  unfold main. destruct (generate_ngrams input _) as [m b].
  rewrite slice_to_zero. apply write_wordlist_empty. now left.
Qed.

End Claims.

(** ** The claims on concrete runs *)

(** The quantizer evaluated in binary64.  At count 8 and maximum 16 the
    quotient of the two logarithms is just below 3/4 and the score is 131;
    at 2048 and 4096 it is just above 11/12 and the score is 161.  At the
    exact points (count 1, count equal to the maximum, maximum 1) the
    outcomes are those of [word_cnt_to_freq_top], [word_cnt_to_freq_max_one]
    and of the bottom of the range. *)
Lemma binary64_runs :
  let q := @Quantizer.word_cnt_to_freq Binary64.ops in
  q 8 16 false = Ok 131
  /\ q 8 16 true = Ok 235
  /\ q 1000 10000 false = Ok 131
  /\ q 2048 4096 false = Ok 161
  /\ q 2 2 false = Ok 175
  /\ q 2 2 true = Ok 255
  /\ q 1 2 false = Ok 1
  /\ q 1 2 true = Ok 176
  /\ q 1 1 false = Raise ZeroDivisionError
  /\ q 0 2 false = Raise ValueError.
Proof.
  vm_compute. repeat split; reflexivity.
Qed.

(** The laws of exactness hold in binary64, by evaluation of every case:
    zero is zero, [math.log(1, 1.15)] is zero, and the integers up to 255
    multiply by 0 and 1, add and round without error. *)
Lemma binary64_small_integers :
  let F := Binary64.ops in
  is_zero (of_int 0) = true
  /\ log115 1 = of_int 0
  /\ (forall a b, 0 <= a <= 255 -> 0 <= b <= 1 ->
        fmul (of_int a) (of_int b) = of_int (a * b))
  /\ (forall a b, 0 <= a <= 255 -> 0 <= b <= 255 ->
        fadd (of_int a) (of_int b) = of_int (a + b))
  /\ (forall n, 0 <= n <= 255 -> round_int (of_int n) = n).
Proof.
  assert (forall a, 0 <= a <= 255 -> In a Binary64.small_ints) as Hin.
  { intros a Ha. unfold Binary64.small_ints.
    rewrite <- (Z2Nat.id a) by lia. apply in_map, in_seq. lia. }
  simpl. split; [reflexivity|]. split; [reflexivity|]. split; [|split].
  - assert (forallb (fun a => forallb (fun b =>
              PrimFloat.Leibniz.eqb
                (PrimFloat.mul (Binary64.of_Z a) (Binary64.of_Z b))
                (Binary64.of_Z (a * b))) [0; 1]) Binary64.small_ints = true)
      as H by (vm_compute; reflexivity).
    intros a b Ha Hb. rewrite forallb_forall in H.
    specialize (H a (Hin a Ha)). rewrite forallb_forall in H.
    apply FloatAxioms.Leibniz.eqb_spec, H.
    assert (b = 0 \/ b = 1) as [->| ->] by lia; simpl; tauto.
  - assert (forallb (fun a => forallb (fun b =>
              PrimFloat.Leibniz.eqb
                (PrimFloat.add (Binary64.of_Z a) (Binary64.of_Z b))
                (Binary64.of_Z (a + b))) Binary64.small_ints)
              Binary64.small_ints = true)
      as H by (vm_compute; reflexivity).
    intros a b Ha Hb. rewrite forallb_forall in H.
    specialize (H a (Hin a Ha)). rewrite forallb_forall in H.
    apply FloatAxioms.Leibniz.eqb_spec, H, Hin, Hb.
  - assert (forallb (fun n => Binary64.round_half_even (Binary64.of_Z n) =? n)
              Binary64.small_ints = true)
      as H by (vm_compute; reflexivity).
    intros n Hn. rewrite forallb_forall in H.
    apply Z.eqb_eq, H, Hin, Hn.
Qed.

(** In the exact arithmetic the same quotient is 3/4, the value to round is
    131.5 and the tie goes to 132: the laws fix the range and the order of
    the scores, not the score of every count. *)
Lemma exact_tie_at_8_16 :
  @Quantizer.word_cnt_to_freq ExactArith.ops 8 16 false = Ok 132.
Proof.
  rewrite (@word_cnt_to_freq_returns ExactArith.ops exact_laws) by lia.
  f_equal. unfold Quantizer.scaled, Quantizer.log_quotient, Quantizer.MONOGRAM_SPACE.
  change (175 - 1) with 174. simpl.
  assert (ln 8 = 3 * ln 2)%R as E8.
  { replace 8%R with (2 ^ 3)%R by lra. rewrite ln_pow by lra. simpl. lra. }
  assert (ln 16 = 4 * ln 2)%R as E16.
  { replace 16%R with (2 ^ 4)%R by lra. rewrite ln_pow by lra. simpl. lra. }
  pose proof ln_base_pos as Hb. pose proof (ln_IZR_pos 2 ltac:(lia)) as H2.
  assert (174 * (ln 8 / ln ExactArith.log_base / (ln 16 / ln ExactArith.log_base))
          + 1 = 263 / 2)%R as ->.
  { rewrite E8, E16. field. split; lra. }
  unfold ExactArith.py_round.
  assert (Int_part (263 / 2) = 131) as EI.
  { symmetry. apply Int_part_spec. lra. }
  rewrite frac_part_eq, EI.
  destruct (Rlt_dec _ _) as [H|_]; [exfalso; lra|].
  destruct (Rlt_dec _ _) as [H|_]; [exfalso; lra|].
  reflexivity.
Qed.

Section QuantizerRuns.
#[local] Existing Instance ExactArith.ops.
#[local] Existing Instance exact_laws.
Import Quantizer.





End QuantizerRuns.

Section Runs.
#[local] Existing Instance AsciiText.unicode.
#[local] Existing Instance ExactArith.ops.
#[local] Existing Instance exact_laws.
Import Quantizer Examples.
Open Scope string_scope.

Ltac run_writer :=
  cbv -[word_cnt_to_freq ExactArith.ops];
  rewrite ?(word_cnt_to_freq_top 2) by lia;
  reflexivity.

(** C2 (the run that breaks it).  "paris" is accepted only as "Paris"; the
    grouping index holds the bigram (paris, is) under the key "paris", the
    writer reads the index with "Paris" and finds nothing: the word line of
    "Paris" is followed by no bigram line. *)
Theorem C2_capitalized_word_drops_bigrams :
  bigram_dict_get (group_bigrams paris_bigrams) "paris" = [("is", 2)]
  /\ resolve_word (english "" "") "paris" = Some "Paris"
  /\ bigram_dict_get (group_bigrams paris_bigrams) "Paris" = []
  /\ write_wordlist english 0 paris_monograms paris_bigrams "en" "English" None
     = {| artifact :=
            Some ["dictionary=main:en,locale=en,description=English,date=0,version=1";
                  " word=Paris,f=175";
                  " word=is,f=175"];
          raised := None |}.
Proof.
  repeat split; try reflexivity. run_writer.
Qed.

(** C3 (the run that breaks it).  "arsch" is in the profanity set and is
    accepted only as "Arsch"; its word line carries [f=0] but no
    [possibly_offensive=true], because the set holds "arsch" and the writer
    looks for "Arsch". *)
Theorem C3_capitalized_profanity_not_flagged :
  main german 0 "de" german_input 10 (Some ["arsch"]) None "Deutsch"
  = {| artifact :=
         Some ["dictionary=main:de,locale=de,description=Deutsch,date=0,version=1";
               " word=guten,f=175";
               "  bigram=morgen,f=255";
               " word=morgen,f=175";
               " word=Arsch,f=0"];
       raised := None |}.
Proof.
  run_writer.
Qed.

(** C4 (as stated, refuted).  With the limit 0 the run does not leave a
    file that consists of the header line: it leaves no file. *)
Lemma C4_limit_zero_not_header_only :
  artifact (main english 0 "en" cat_input 0 None None "English")
  <> Some [header "en" "English" 0].
Proof.
  unfold main.
  destruct (generate_ngrams cat_input (Some [])) as [m b].
  rewrite slice_to_zero, write_wordlist_empty by (now left). discriminate.
Qed.

(** C6 (the run that breaks it).  The trailing token "paris" of the bigram
    (visit, paris) is accepted only as "Paris"; the writer asks the
    dictionary about "paris" alone and writes no bigram line under "visit",
    while the same token gets its word line as "Paris". *)
Theorem C6_bigram_complement_no_capitalized_retry :
  bigram_dict_get (group_bigrams visit_bigrams) "visit" = [("paris", 2)]
  /\ resolve_word (english "" "") "paris" = Some "Paris"
  /\ write_wordlist english 0 visit_monograms visit_bigrams "en" "English" None
     = {| artifact :=
            Some ["dictionary=main:en,locale=en,description=English,date=0,version=1";
                  " word=visit,f=175";
                  " word=Paris,f=175"];
          raised := None |}.
Proof.
  repeat split; try reflexivity. run_writer.
Qed.

Lemma C5_zero_count_scores_zero_witness :
  exists ls e,
    write_monogram (german "" "") ["arsch"] 7 3 [] ("arsch", 0%Z)
    = (" word=Arsch,f=0" :: ls, e).
Proof.
  apply (proj2 (proj2 (C5_zero_count_scores_zero 7))
           (german "" "") ["arsch"] 3%Z [] "arsch" "Arsch").
  - reflexivity.
  - discriminate.
Defined.

Lemma C7_counting_invariant_witness :
  In ("damn", 0) (fst (generate_ngrams cat_input (Some ["damn"])))
  /\ (0 = 0 <-> str_in "damn" ["damn"] = true)%Z.
Proof.
  assert (In ("damn", 0%Z) (fst (generate_ngrams cat_input (Some ["damn"]))))
    as H by (vm_compute; tauto).
  split; [exact H|].
  apply (proj1 (C7_counting_invariant cat_input (Some ["damn"])) "damn" 0%Z H).
Defined.

Lemma C9_write_wordlist_deterministic_witness :
  write_wordlist english 0 paris_monograms paris_bigrams "en" "English"
    (Some ["is"; "visit"])
  = write_wordlist (accepting ["visit"; "is"; "Paris"; "is"]) 0 paris_monograms
      paris_bigrams "en" "English" (Some ["visit"; "is"; "is"]).
Proof.
  apply (C9_write_wordlist_deterministic english
           (accepting ["visit"; "is"; "Paris"; "is"]) 0 paris_monograms
           paris_bigrams "en" "English" (Some ["is"; "visit"])
           (Some ["visit"; "is"; "is"])).
  - intros dic aff w. unfold english, accepting. simpl.
    destruct (w =? "Paris"), (w =? "is"), (w =? "visit"); reflexivity.
  - intros w. simpl.
    destruct (w =? "is"), (w =? "visit"); reflexivity.
Defined.

Lemma C10_empty_list_no_artifact_witness :
  write_wordlist english 0 paris_monograms [] "en" "English" None
  = {| artifact := None; raised := Some ValueError |}
  /\ main english 0 "en" single_word_input 10 None None "English"
     = {| artifact := None; raised := Some ValueError |}.
Proof.
  destruct (C10_empty_list_no_artifact english 0 "en" "English") as [H1 H2].
  split.
  - apply H1. right. reflexivity.
  - apply H2. reflexivity.
Defined.

End Runs.

(** ** Further properties of the quantizer *)

Section QuantizerEdges.
Import Quantizer.
Context {F : FloatOps} {L : FloatLaws F}.

Lemma word_cnt_to_freq_nonpos_count (c m : Z) (b : bool) :
  c <= 0 -> word_cnt_to_freq c m b = Raise ValueError.
Proof.
  intros Hc. unfold word_cnt_to_freq.
  rewrite (math_log_nonpos c Hc). reflexivity.
Qed.

Lemma word_cnt_to_freq_nonpos_max (c m : Z) (b : bool) :
  1 <= c -> m <= 0 -> word_cnt_to_freq c m b = Raise ValueError.
Proof.
  intros Hc Hm. unfold word_cnt_to_freq.
  rewrite (math_log_pos c Hc), (math_log_nonpos m Hm). reflexivity.
Qed.

Lemma word_cnt_to_freq_Ok_inv (c m : Z) (b : bool) (f : Z) :
  word_cnt_to_freq c m b = Ok f -> 1 <= c /\ 2 <= m.
Proof.
  intros E.
  destruct (Z_le_gt_dec c 0) as [Hc|Hc].
  { rewrite word_cnt_to_freq_nonpos_count in E by exact Hc. discriminate E. }
  destruct (Z_le_gt_dec m 0) as [Hm|Hm].
  { rewrite word_cnt_to_freq_nonpos_max in E by lia. discriminate E. }
  destruct (Z.eq_dec m 1) as [->|Hm1].
  { rewrite word_cnt_to_freq_max_one in E by lia. discriminate E. }
  lia.
Qed.


(** X1.  The quantizer returns a score exactly when the count is at least 1
    and the maximum at least 2.  A count below 1 raises [ValueError], and so
    does a maximum below 1 with a positive count; a maximum of exactly 1
    raises [ZeroDivisionError]. *)
Theorem X1_word_cnt_to_freq_outcome (c m : Z) (b : bool) :
  (c <= 0 -> word_cnt_to_freq c m b = Raise ValueError)
  /\ (1 <= c -> m <= 0 -> word_cnt_to_freq c m b = Raise ValueError)
  /\ (1 <= c -> m = 1 -> word_cnt_to_freq c m b = Raise ZeroDivisionError)
  /\ ((exists f, word_cnt_to_freq c m b = Ok f) <-> 1 <= c /\ 2 <= m).
Proof.
  split; [apply word_cnt_to_freq_nonpos_count|].
  split; [apply word_cnt_to_freq_nonpos_max|].
  split; [intros Hc ->; now apply word_cnt_to_freq_max_one|].
  split.
  - intros [f E]. exact (word_cnt_to_freq_Ok_inv _ _ _ _ E).
  - intros [Hc Hm]. eexists. now apply word_cnt_to_freq_returns.
Qed.

(** X2.  With a maximum of at least 2, a count of 1 gets the bottom of its
    sub-range: 1 for a unigram and 176 for a bigram. *)
Theorem X2_count_one_is_bottom (m : Z) :
  2 <= m ->
  word_cnt_to_freq 1 m false = Ok 1 /\ word_cnt_to_freq 1 m true = Ok 176.
Proof.
  intros Hm.
  rewrite !word_cnt_to_freq_returns, log_quotient_one, !scaled_bottom,
    !round_of_int by lia.
  split; reflexivity.
Qed.


End QuantizerEdges.

(** ** Further properties of dictionaries and sorting *)

Section DictGetFacts.
Context {K V : Type} (eqb : K -> K -> bool).
Hypothesis eqb_eq : forall a b, eqb a b = true <-> a = b.

Lemma eqb_same (k : K) : eqb k k = true.
Proof. now apply eqb_eq. Qed.

Lemma dict_get_In (k : K) (v : V) (d : list (K * V)) :
  dict_get eqb k d = Some v -> In (k, v) d.
Proof.
  induction d as [|[k1 v1] d IH]; simpl; [discriminate|].
  destruct (eqb k k1) eqn:E.
  - apply eqb_eq in E. subst k1. intros H. inversion H. now left.
  - intros H. right. now apply IH.
Qed.

Lemma dict_get_None (k : K) (d : list (K * V)) :
  dict_get eqb k d = None <-> dict_mem eqb k d = false.
Proof.
  induction d as [|[k1 v1] d IH]; simpl; [tauto|].
  destruct (eqb k k1); simpl; [split; discriminate|exact IH].
Qed.

Lemma dict_get_app (k : K) (d l : list (K * V)) :
  dict_get eqb k (d ++ l)
  = match dict_get eqb k d with Some v => Some v | None => dict_get eqb k l end.
Proof.
  induction d as [|[k1 v1] d IH]; simpl; [reflexivity|].
  destruct (eqb k k1); [reflexivity|exact IH].
Qed.

Lemma dict_get_update (k k0 : K) (f : V -> V) (d : list (K * V)) :
  dict_get eqb k (dict_update eqb k0 f d)
  = if eqb k k0 then option_map f (dict_get eqb k d) else dict_get eqb k d.
Proof.
  induction d as [|[k1 v1] d IH]; simpl.
  - destruct (eqb k k0); reflexivity.
  - destruct (eqb k0 k1) eqn:E01; simpl.
    + apply eqb_eq in E01. subst k1.
      destruct (eqb k k0); reflexivity.
    + destruct (eqb k k1) eqn:E1.
      * apply eqb_eq in E1. subst k1.
        destruct (eqb k k0) eqn:E0; [|reflexivity].
        apply eqb_eq in E0. subst k0. rewrite eqb_same in E01. discriminate.
      * exact IH.
Qed.

Lemma dict_get_setdefault (k k0 : K) (v0 : V) (d : list (K * V)) :
  dict_get eqb k (dict_setdefault eqb k0 v0 d)
  = match dict_get eqb k d with
    | Some v => Some v
    | None => if eqb k k0 then Some v0 else None
    end.
Proof.
  unfold dict_setdefault. destruct (dict_mem eqb k0 d) eqn:M.
  - destruct (dict_get eqb k d) eqn:G; [reflexivity|].
    destruct (eqb k k0) eqn:E; [|reflexivity].
    apply eqb_eq in E. subst k0. apply dict_get_None in G. congruence.
  - rewrite dict_get_app. simpl. reflexivity.
Qed.

(** [if k0 not in d: d[k0] = v0] followed by [d[k0] = f(d[k0])], read at
    [k]. *)
Lemma dict_get_setdefault_update (k k0 : K) (v0 : V) (f : V -> V)
    (d : list (K * V)) :
  dict_get eqb k (dict_update eqb k0 f (dict_setdefault eqb k0 v0 d))
  = if eqb k k0
    then Some (f (match dict_get eqb k d with Some v => v | None => v0 end))
    else dict_get eqb k d.
Proof.
  rewrite dict_get_update, dict_get_setdefault.
  destruct (eqb k k0); destruct (dict_get eqb k d); reflexivity.
Qed.

Lemma dict_update_fst (k : K) (f : V -> V) (d : list (K * V)) :
  map fst (dict_update eqb k f d) = map fst d.
Proof.
  induction d as [|[k1 v1] d IH]; simpl; [reflexivity|].
  destruct (eqb k k1); simpl; [reflexivity|]. now rewrite IH.
Qed.

Lemma dict_mem_keys (k : K) (d : list (K * V)) :
  dict_mem eqb k d = true <-> In k (map fst d).
Proof.
  induction d as [|[k1 v1] d IH]; simpl.
  - split; [discriminate|tauto].
  - rewrite orb_true_iff, IH, eqb_eq. split; intros [H|H]; auto.
Qed.

Lemma dict_setdefault_NoDup (k : K) (v0 : V) (d : list (K * V)) :
  NoDup (map fst d) -> NoDup (map fst (dict_setdefault eqb k v0 d)).
Proof.
  intros N. unfold dict_setdefault. destruct (dict_mem eqb k d) eqn:M;
    [exact N|].
  rewrite map_app. simpl.
  apply NoDup_app; [exact N|repeat constructor; intros []|].
  intros a Ha [<-|[]]. apply dict_mem_keys in Ha. congruence.
Qed.

Lemma NoDup_dict_get (k : K) (v : V) (d : list (K * V)) :
  NoDup (map fst d) -> In (k, v) d -> dict_get eqb k d = Some v.
Proof.
  induction d as [|[k1 v1] d IH]; simpl; [tauto|].
  intros N [E|H].
  - inversion E; subst. now rewrite eqb_same.
  - inversion N as [|? ? Hn N']; subst.
    destruct (eqb k k1) eqn:E1; [|now apply IH].
    apply eqb_eq in E1. subst k1. exfalso. apply Hn.
    apply (in_map fst) in H. exact H.
Qed.
End DictGetFacts.

(** Reading a counter after a loop of increments: the count read at [k]
    grows by the number of elements that hit [k]. *)
Lemma dict_get_fold_count {K X : Type} (eqb : K -> K -> bool) (k : K)
    (f : list (K * Z) -> X -> list (K * Z)) (hit : X -> bool) :
  (forall d x,
     dict_get eqb k (f d x)
     = if hit x
       then Some (match dict_get eqb k d with Some c => c | None => 0 end + 1)
       else dict_get eqb k d) ->
  forall xs d,
    dict_get eqb k (fold_left f xs d)
    = match filter hit xs with
      | [] => dict_get eqb k d
      | _ => Some (match dict_get eqb k d with Some c => c | None => 0 end
                   + Z.of_nat (List.length (filter hit xs)))
      end.
Proof.
  intros Hstep. induction xs as [|x xs IH]; intros d; simpl; [reflexivity|].
  rewrite IH, Hstep. destruct (hit x).
  - destruct (filter hit xs) as [|y ys]; cbn [List.length].
    + reflexivity.
    + f_equal. lia.
  - reflexivity.
Qed.

Lemma insert_desc_Permutation {K : Type} (x : K * Z) (l : list (K * Z)) :
  Permutation (insert_desc x l) (x :: l).
Proof.
  induction l as [|y l IH]; simpl; [reflexivity|].
  destruct (snd x <? snd y); [|reflexivity].
  rewrite IH. apply perm_swap.
Qed.

Lemma sorted_desc_Permutation {K : Type} (l : list (K * Z)) :
  Permutation (sorted_desc l) l.
Proof.
  induction l as [|x l IH]; simpl; [reflexivity|].
  rewrite insert_desc_Permutation. now constructor.
Qed.

Lemma insert_desc_descending {K : Type} (x : K * Z) (l : list (K * Z)) :
  descending l -> descending (insert_desc x l).
Proof.
  unfold descending. induction l as [|y l IH]; intros S; simpl.
  - repeat constructor.
  - inversion S as [|? ? S' F]; subst.
    destruct (Z.ltb_spec (snd x) (snd y)) as [Lt|Ge].
    + constructor; [now apply IH|].
      apply Forall_forall. intros z Hz.
      apply insert_desc_In in Hz as [->|Hz]; [lia|].
      rewrite Forall_forall in F. now apply F.
    + constructor; [exact S|].
      constructor; [lia|].
      apply Forall_forall. intros z Hz.
      rewrite Forall_forall in F. specialize (F z Hz). simpl in F. lia.
Qed.

Lemma sorted_desc_descending {K : Type} (l : list (K * Z)) :
  descending (sorted_desc l).
Proof.
  induction l as [|x l IH]; simpl; [constructor|].
  now apply insert_desc_descending.
Qed.

Lemma fold_count_line_concat {U : Unicode} (profanity : list string)
    (input : list (list string)) (t : list Monogram * list Bigram) :
  fold_left (count_line profanity) input t
  = (fold_left (count_monogram profanity) (List.concat input) (fst t),
     fold_left (count_bigram profanity) (List.concat (map ngrams2 input))
       (snd t)).
Proof.
  revert t. induction input as [|l input IH]; intros [m b]; simpl;
    [reflexivity|].
  rewrite IH. unfold count_line. simpl. now rewrite !fold_left_app.
Qed.

Lemma insert_desc_filter_count {K : Type} (c : Z) (x : K * Z) (l : list (K * Z)) :
  filter (fun e => snd e =? c) (insert_desc x l)
  = filter (fun e => snd e =? c) (x :: l).
Proof.
  induction l as [|y l IH]; [reflexivity|].
  cbn [insert_desc]. destruct (Z.ltb_spec (snd x) (snd y)) as [Lt|Ge];
    [|reflexivity].
  cbn [filter] in *. rewrite IH.
  destruct (Z.eqb_spec (snd x) c), (Z.eqb_spec (snd y) c);
    try reflexivity; lia.
Qed.

Lemma sorted_desc_filter_count {K : Type} (c : Z) (l : list (K * Z)) :
  filter (fun e => snd e =? c) (sorted_desc l) = filter (fun e => snd e =? c) l.
Proof.
  induction l as [|x l IH]; [reflexivity|].
  cbn [sorted_desc]. rewrite insert_desc_filter_count.
  cbn [filter]. now rewrite IH.
Qed.

(** ** Further properties of the counting phase *)

Section CounterExact.
Context {U : Unicode}.
Variable profanity : list string.

Lemma count_monogram_get (k : string) (d : list Monogram) (raw : string) :
  isalpha k = true -> str_in k profanity = false ->
  dict_get String.eqb k (count_monogram profanity d raw)
  = if String.eqb (dict_normalize raw) k
    then Some (match dict_get String.eqb k d with Some c => c | None => 0 end
               + 1)
    else dict_get String.eqb k d.
Proof.
  intros A S. unfold count_monogram.
  destruct (String.eqb_spec (dict_normalize raw) k) as [E|NE].
  - rewrite E, A, S. simpl.
    rewrite (dict_get_setdefault_update _ String.eqb_eq), String.eqb_refl.
    reflexivity.
  - assert (String.eqb k (dict_normalize raw) = false) as NE'
      by (apply String.eqb_neq; congruence).
    destruct (isalpha (dict_normalize raw)); [|reflexivity].
    destruct (negb _); simpl.
    + rewrite (dict_get_setdefault_update _ String.eqb_eq), NE'. reflexivity.
    + rewrite (dict_get_setdefault _ String.eqb_eq), NE'.
      destruct (dict_get String.eqb k d); reflexivity.
Qed.

Lemma count_monogram_NoDup (d : list Monogram) (raw : string) :
  NoDup (map fst d) -> NoDup (map fst (count_monogram profanity d raw)).
Proof.
  intros N. unfold count_monogram.
  destruct (isalpha _); [|exact N].
  destruct (negb _); simpl.
  - rewrite dict_update_fst. now apply (dict_setdefault_NoDup _ String.eqb_eq).
  - now apply (dict_setdefault_NoDup _ String.eqb_eq).
Qed.

Lemma pair_eqb_sym (p q : string * string) : pair_eqb p q = pair_eqb q p.
Proof.
  unfold pair_eqb. now rewrite (String.eqb_sym (fst p)), (String.eqb_sym (snd p)).
Qed.

Lemma count_bigram_get (p : string * string) (d : list Bigram)
    (q : string * string) :
  isalpha (fst p) = true -> isalpha (snd p) = true ->
  str_in (fst p) profanity = false -> str_in (snd p) profanity = false ->
  dict_get pair_eqb p (count_bigram profanity d q)
  = if pair_eqb (dict_normalize (fst q), dict_normalize (snd q)) p
    then Some (match dict_get pair_eqb p d with Some c => c | None => 0 end + 1)
    else dict_get pair_eqb p d.
Proof.
  destruct p as [a b]. cbn [fst snd].
  intros A1 A2 S1 S2. unfold count_bigram. cbn [fst snd].
  destruct (pair_eqb (dict_normalize (fst q), dict_normalize (snd q)) (a, b))
    eqn:E.
  - apply pair_eqb_eq in E. injection E as E1 E2.
    rewrite E1, E2, A1, A2, S1, S2. simpl.
    rewrite (dict_get_setdefault_update _ pair_eqb_eq).
    rewrite (proj2 (pair_eqb_eq (a, b) (a, b)) eq_refl). reflexivity.
  - destruct (_ && _); [|reflexivity].
    rewrite (dict_get_setdefault_update _ pair_eqb_eq), pair_eqb_sym, E.
    reflexivity.
Qed.

Lemma count_bigram_NoDup (d : list Bigram) (q : string * string) :
  NoDup (map fst d) -> NoDup (map fst (count_bigram profanity d q)).
Proof.
  intros N. unfold count_bigram.
  destruct (_ && _); [|exact N].
  rewrite dict_update_fst. now apply (dict_setdefault_NoDup _ pair_eqb_eq).
Qed.

Lemma count_lines_NoDup (input : list (list string)) :
  NoDup (map fst (fst (count_lines profanity input)))
  /\ NoDup (map fst (snd (count_lines profanity input))).
Proof.
  unfold count_lines. rewrite fold_count_line_concat. simpl. split.
  - apply (fold_left_invariant _ (fun d => NoDup (map fst d)) (fun _ => True));
      auto; [|constructor].
    intros d raw N _. now apply count_monogram_NoDup.
  - apply (fold_left_invariant _ (fun d => NoDup (map fst d)) (fun _ => True));
      auto; [|constructor].
    intros d q N _. now apply count_bigram_NoDup.
Qed.

(** What holds of every key of the bigram table while it is built. *)
Lemma count_bigram_keys (P : string * string -> Prop) (d : list Bigram)
    (q : string * string) :
  P (dict_normalize (fst q), dict_normalize (snd q)) ->
  (forall p c, In (p, c) d ->
     P p /\ isalpha (fst p) = true /\ isalpha (snd p) = true
     /\ str_in (fst p) profanity = false /\ str_in (snd p) profanity = false) ->
  forall p c, In (p, c) (count_bigram profanity d q) ->
    P p /\ isalpha (fst p) = true /\ isalpha (snd p) = true
    /\ str_in (fst p) profanity = false /\ str_in (snd p) profanity = false.
Proof.
  intros HP Hd p c. unfold count_bigram. cbn [fst snd].
  destruct (_ && _) eqn:C; [|apply Hd].
  apply andb_true_iff in C as [CA CS].
  apply andb_true_iff in CA as [A1 A2].
  apply andb_true_iff in CS as [S1 S2].
  apply negb_true_iff in S1, S2.
  intros H. apply (setdefault_update_In pair_eqb pair_eqb_eq) in H
    as [H|[[-> _]|[-> _]]].
  - now apply (Hd p c).
  - simpl. auto.
  - simpl. auto.
Qed.

Lemma count_lines_bigram_keys (input : list (list string)) :
  forall p c, In (p, c) (snd (count_lines profanity input)) ->
    (exists line q, In line input /\ In q (ngrams2 line)
                    /\ p = (dict_normalize (fst q), dict_normalize (snd q)))
    /\ isalpha (fst p) = true /\ isalpha (snd p) = true
    /\ str_in (fst p) profanity = false /\ str_in (snd p) profanity = false.
Proof.
  unfold count_lines. rewrite fold_count_line_concat. simpl.
  apply (fold_left_invariant _
           (fun d => forall p c, In (p, c) d -> _ /\ _ /\ _ /\ _ /\ _)
           (fun q => exists line, In line input /\ In q (ngrams2 line))).
  - intros d q Hd [line [Hl Hq]]. apply count_bigram_keys; [|exact Hd].
    exists line, q. auto.
  - intros q Hq. apply in_concat in Hq as [l [Hl Hq]].
    apply in_map_iff in Hl as [line [<- Hl]]. exists line. auto.
  - intros p c [].
Qed.
End CounterExact.

Section CounterProperties.

(** X4.  The count of a monogram entry whose token is not in the profanity
    set is the number of tokens of the input that normalize to it. *)
Theorem X4_monogram_count_is_occurrences {U : Unicode}
    (input : list (list string)) (profanity : option (list string))
    (tok : string) (cnt : Z) :
  In (tok, cnt) (fst (generate_ngrams input profanity)) ->
  str_in tok (match profanity with Some p => p | None => [] end) = false ->
  cnt = occurrences tok input.
Proof.
  unfold generate_ngrams. simpl.
  set (prof := match profanity with Some p => p | None => [] end).
  intros H S. apply (proj1 (sorted_desc_In _ _)) in H.
  destruct (count_lines_ok prof (fun _ => True) input) as [Hm _]; [auto|].
  destruct (Hm _ _ H) as (_ & A & _).
  apply (NoDup_dict_get String.eqb String.eqb_eq) in H;
    [|apply count_lines_NoDup].
  unfold count_lines in H. rewrite fold_count_line_concat in H. simpl in H.
  rewrite (dict_get_fold_count String.eqb tok (count_monogram prof)
             (fun raw => String.eqb (dict_normalize raw) tok)) in H.
  - unfold occurrences. simpl in H.
    destruct (filter _ (List.concat input)); [discriminate H|].
    inversion H. reflexivity.
  - intros d raw. now apply count_monogram_get.
Qed.

(** X5.  The count of a bigram entry is the number of adjacent pairs of the
    input that normalize to it. *)
Theorem X5_bigram_count_is_occurrences {U : Unicode}
    (input : list (list string)) (profanity : option (list string))
    (pair : string * string) (cnt : Z) :
  In (pair, cnt) (snd (generate_ngrams input profanity)) ->
  cnt = pair_occurrences pair input.
Proof.
  unfold generate_ngrams. simpl.
  set (prof := match profanity with Some p => p | None => [] end).
  intros H. apply (proj1 (sorted_desc_In _ _)) in H.
  destruct (count_lines_bigram_keys prof input _ _ H) as (_ & A1 & A2 & S1 & S2).
  apply (NoDup_dict_get pair_eqb pair_eqb_eq) in H;
    [|apply count_lines_NoDup].
  unfold count_lines in H. rewrite fold_count_line_concat in H. simpl in H.
  rewrite (dict_get_fold_count pair_eqb pair (count_bigram prof)
             (fun q => pair_eqb (dict_normalize (fst q),
                                 dict_normalize (snd q)) pair)) in H.
  - unfold pair_occurrences. simpl in H.
    destruct (filter _ (List.concat (map ngrams2 input))); [discriminate H|].
    inversion H. reflexivity.
  - intros d q. now apply count_bigram_get.
Qed.

(** X6.  No key occurs twice in the monogram table or in the bigram table
    that [generate_ngrams] returns. *)
Theorem X6_tables_have_unique_keys {U : Unicode}
    (input : list (list string)) (profanity : option (list string)) :
  NoDup (map fst (fst (generate_ngrams input profanity)))
  /\ NoDup (map fst (snd (generate_ngrams input profanity))).
Proof.
  unfold generate_ngrams. simpl.
  set (prof := match profanity with Some p => p | None => [] end).
  destruct (count_lines_NoDup prof input) as [Nm Nb]. split.
  - apply (Permutation_NoDup
             (Permutation_map fst
                (Permutation_sym (sorted_desc_Permutation _))) Nm).
  - apply (Permutation_NoDup
             (Permutation_map fst
                (Permutation_sym (sorted_desc_Permutation _))) Nb).
Qed.

(** X7.  Both tables that [generate_ngrams] returns are in descending order
    of count, and the entries of any one count stand in the order in which
    their keys were first counted. *)
Theorem X7_tables_sorted_and_stable {U : Unicode}
    (input : list (list string)) (profanity : option (list string)) :
  let prof := match profanity with Some p => p | None => [] end in
  descending (fst (generate_ngrams input profanity))
  /\ descending (snd (generate_ngrams input profanity))
  /\ (forall c,
        filter (fun e => snd e =? c) (fst (generate_ngrams input profanity))
        = filter (fun e => snd e =? c) (fst (count_lines prof input)))
  /\ (forall c,
        filter (fun e => snd e =? c) (snd (generate_ngrams input profanity))
        = filter (fun e => snd e =? c) (snd (count_lines prof input))).
Proof.
  intros prof. unfold generate_ngrams. simpl.
  split; [apply sorted_desc_descending|].
  split; [apply sorted_desc_descending|].
  split; intros c; apply sorted_desc_filter_count.
Qed.

(** X8.  Both tokens of every bigram entry are alphabetic and outside the
    profanity set, and the entry is the normalized form of two adjacent
    tokens of some line of the input. *)
Theorem X8_bigram_keys {U : Unicode}
    (input : list (list string)) (profanity : option (list string))
    (a b : string) (cnt : Z) :
  let prof := match profanity with Some p => p | None => [] end in
  In ((a, b), cnt) (snd (generate_ngrams input profanity)) ->
  isalpha a = true /\ isalpha b = true
  /\ str_in a prof = false /\ str_in b prof = false
  /\ exists line x y,
       In line input /\ In (x, y) (ngrams2 line)
       /\ a = dict_normalize x /\ b = dict_normalize y.
Proof.
  intros prof. unfold generate_ngrams. simpl. fold prof.
  intros H. apply (proj1 (sorted_desc_In _ _)) in H.
  destruct (count_lines_bigram_keys prof input _ _ H)
    as ([line [[x y] (Hl & Hq & E)]] & A1 & A2 & S1 & S2).
  simpl in *. injection E as -> ->.
  repeat split; auto. exists line, x, y. auto.
Qed.

End CounterProperties.

(** ** Further properties of the writer *)

Lemma fold_max_ge (l : list Z) (x : Z) :
  x <= fold_left Z.max l x /\ forall y, In y l -> y <= fold_left Z.max l x.
Proof.
  revert x. induction l as [|z l IH]; intros x; simpl.
  - split; [lia|tauto].
  - destruct (IH (Z.max x z)) as [H1 H2]. split; [lia|].
    intros y [<-|Hy]; [lia|now apply H2].
Qed.

Lemma fold_max_In (l : list Z) (x : Z) :
  fold_left Z.max l x = x \/ In (fold_left Z.max l x) l.
Proof.
  revert x. induction l as [|z l IH]; intros x; simpl; [now left|].
  destruct (IH (Z.max x z)) as [E|H]; [|right; now right].
  rewrite E. destruct (Z.max_spec x z) as [[_ ->]|[_ ->]]; [right|]; now left.
Qed.

Lemma py_max_ge (l : list Z) (m x : Z) :
  py_max l = Ok m -> In x l -> x <= m.
Proof.
  destruct l as [|z l]; simpl; [discriminate|].
  intros E. inversion E as [E']. clear E E'.
  destruct (fold_max_ge l z) as [H1 H2].
  intros [<-|H]; [exact H1|now apply H2].
Qed.

Lemma py_max_In (l : list Z) (m : Z) : py_max l = Ok m -> In m l.
Proof.
  destruct l as [|z l]; simpl; [discriminate|].
  intros E. inversion E as [E'].
  destruct (fold_max_In l z) as [->|H]; [now left|now right].
Qed.

Lemma py_max_nonempty (l : list Z) : l <> [] -> exists m, py_max l = Ok m.
Proof.
  destruct l as [|z l]; [contradiction|]. intros _. simpl. eauto.
Qed.

Lemma py_max_Raise (l : list Z) (e : exn) : py_max l = Raise e -> l = [].
Proof.
  destruct l; [reflexivity|discriminate].
Qed.

Section WriterShape.
Context {U : Unicode} {F : FloatOps} {L : FloatLaws F}.
Import Quantizer.

Lemma bigram_dict_get_group (bd : list (string * list (string * Z)))
    (b : Bigram) (k : string) :
  bigram_dict_get (group_bigram bd b) k
  = bigram_dict_get bd k
    ++ (if String.eqb k (fst (fst b)) then [(snd (fst b), snd b)] else []).
Proof.
  unfold bigram_dict_get, group_bigram.
  rewrite (dict_get_setdefault_update _ String.eqb_eq).
  destruct (String.eqb k (fst (fst b)));
    destruct (dict_get String.eqb k bd); simpl;
    try reflexivity; now rewrite app_nil_r.
Qed.

Lemma bigram_dict_get_fold (bs : list Bigram)
    (bd : list (string * list (string * Z))) (k : string) :
  bigram_dict_get (fold_left group_bigram bs bd) k
  = bigram_dict_get bd k ++ complements_of k bs.
Proof.
  revert bd. induction bs as [|b bs IH]; intros bd; simpl.
  - now rewrite app_nil_r.
  - rewrite IH, bigram_dict_get_group, <- app_assoc. f_equal.
    unfold complements_of. simpl.
    destruct (String.eqb k (fst (fst b))); reflexivity.
Qed.

Lemma complements_of_In (k c : string) (n : Z) (bs : list Bigram) :
  In (c, n) (complements_of k bs) <-> In ((k, c), n) bs.
Proof.
  unfold complements_of. rewrite in_map_iff. split.
  - intros [[[k' c'] n'] [E H]]. simpl in E. injection E as -> ->.
    apply filter_In in H as [H Ek]. simpl in Ek.
    apply String.eqb_eq in Ek. now subst k'.
  - intros H. exists ((k, c), n). split; [reflexivity|].
    apply filter_In. split; [exact H|]. simpl. apply String.eqb_refl.
Qed.



Lemma write_bigrams_returns (hobj : speller) (offensive : list string)
    (mb : Z) (comps : list (string * Z)) :
  2 <= mb -> (forall c n, In (c, n) comps -> 1 <= n) ->
  snd (write_bigrams hobj offensive mb comps) = None.
Proof.
  intros Hmb. induction comps as [|[c n] rest IH]; intros Hge; simpl;
    [reflexivity|].
  assert (snd (write_bigrams hobj offensive mb rest) = None) as Hrest
    by (apply IH; intros; eapply Hge; right; eassumption).
  destruct (hobj c) as [[|]|]; try exact Hrest.
  rewrite word_cnt_to_freq_returns; [|eapply Hge; now left|exact Hmb].
  destruct (write_bigrams hobj offensive mb rest) as [ls e]. exact Hrest.
Qed.

End WriterShape.

Section WriterRuns.
Context {U : Unicode} {F : FloatOps} {L : FloatLaws F}.
Import Quantizer.



Lemma monogram_freq_returns (cnt mm : Z) :
  0 <= cnt -> 2 <= mm -> exists f, monogram_freq cnt mm = Ok f.
Proof.
  intros Hc Hm. unfold monogram_freq. destruct (Z.eqb_spec cnt 0); [eauto|].
  rewrite word_cnt_to_freq_returns by lia. eauto.
Qed.

Lemma write_monogram_returns (hobj : speller) (offensive : list string)
    (mm mb : Z) (bigrams : list Bigram) (m : Monogram) :
  0 <= snd m -> 2 <= mm -> 2 <= mb ->
  (forall b, In b bigrams -> 1 <= snd b) ->
  snd (write_monogram hobj offensive mm mb (group_bigrams bigrams) m) = None.
Proof.
  intros Hc Hm Hmb Hb. unfold write_monogram.
  destruct (resolve_word hobj (fst m)) as [word|]; [|reflexivity].
  destruct (String.eqb word ""); [reflexivity|].
  destruct (monogram_freq_returns (snd m) mm Hc Hm) as [f ->].
  pose proof (write_bigrams_returns hobj offensive mb
                (bigram_dict_get (group_bigrams bigrams) word) Hmb) as H.
  destruct (write_bigrams hobj offensive mb
              (bigram_dict_get (group_bigrams bigrams) word)) as [ls e].
  simpl in *. apply H. intros c n Hin.
  unfold group_bigrams in Hin. rewrite bigram_dict_get_fold in Hin.
  simpl in Hin. apply complements_of_In in Hin. apply (Hb _ Hin).
Qed.

Lemma write_monograms_returns (hobj : speller) (offensive : list string)
    (mm mb : Z) (bigrams : list Bigram) (ms : list Monogram) :
  (forall m, In m ms -> 0 <= snd m) -> 2 <= mm -> 2 <= mb ->
  (forall b, In b bigrams -> 1 <= snd b) ->
  snd (write_monograms hobj offensive mm mb (group_bigrams bigrams) ms) = None.
Proof.
  intros Hc Hm Hmb Hb. induction ms as [|m ms IH]; simpl; [reflexivity|].
  pose proof (write_monogram_returns hobj offensive mm mb bigrams m
                (Hc m (or_introl eq_refl)) Hm Hmb Hb) as H1.
  destruct (write_monogram hobj offensive mm mb (group_bigrams bigrams) m)
    as [ls e]. simpl in H1. subst e.
  assert (snd (write_monograms hobj offensive mm mb (group_bigrams bigrams) ms)
          = None) as H2 by (apply IH; intros; apply Hc; now right).
  destruct (write_monograms hobj offensive mm mb (group_bigrams bigrams) ms)
    as [ls' e']. exact H2.
Qed.

Lemma write_wordlist_opened (HunSpell : string -> string -> speller) (now : Z)
    (monograms : list Monogram) (bigrams : list Bigram)
    (lang description : string) (offensive : option (list string))
    (mm mb : Z) :
  py_max (map snd monograms) = Ok mm -> py_max (map snd bigrams) = Ok mb ->
  write_wordlist HunSpell now monograms bigrams lang description offensive
  = let off := match offensive with Some o => o | None => [] end in
    let r := write_monograms (hobj_of HunSpell lang) off mm mb
               (group_bigrams bigrams) monograms in
    {| artifact := Some (header lang description now :: fst r);
       raised := snd r |}.
Proof.
  intros Em Eb. unfold write_wordlist, hobj_of. rewrite Em, Eb. simpl.
  destruct (write_monograms _ _ mm mb (group_bigrams bigrams) monograms).
  reflexivity.
Qed.

Lemma str_in_app (w : string) (l1 l2 : list string) :
  str_in w (l1 ++ l2) = str_in w l1 || str_in w l2.
Proof. apply existsb_app. Qed.

Lemma slice_to_In {A : Type} (x : A) (l : list A) (n : Z) :
  In x (slice_to l n) -> In x l.
Proof.
  assert (forall k, In x (firstn k l) -> In x l) as H.
  { intros k Hk. rewrite <- (firstn_skipn k l). apply in_or_app. now left. }
  unfold slice_to. destruct (n <? 0); apply H.
Qed.
End WriterRuns.

Section MainFacts.
Context {F : FloatOps} {L : FloatLaws F}.

Lemma write_wordlist_returns {U : Unicode}
    (HunSpell : string -> string -> speller) (now : Z)
    (monograms : list Monogram) (bigrams : list Bigram)
    (lang description : string) (offensive : option (list string)) :
  (forall m, In m monograms -> 0 <= snd m) ->
  (exists m, In m monograms /\ 2 <= snd m) ->
  (forall b, In b bigrams -> 1 <= snd b) ->
  (exists b, In b bigrams /\ 2 <= snd b) ->
  raised (write_wordlist HunSpell now monograms bigrams lang description
            offensive) = None
  /\ artifact (write_wordlist HunSpell now monograms bigrams lang description
                 offensive) <> None.
Proof.
  intros Hm [m2 [Hm2 Hm2']] Hb [b2 [Hb2 Hb2']].
  destruct (py_max_nonempty (map snd monograms)) as [mm Em].
  { destruct monograms; [destruct Hm2|discriminate]. }
  destruct (py_max_nonempty (map snd bigrams)) as [mb Eb].
  { destruct bigrams; [destruct Hb2|discriminate]. }
  rewrite (write_wordlist_opened _ _ _ _ _ _ _ mm mb Em Eb). simpl.
  split; [|discriminate].
  apply write_monograms_returns; auto.
  - pose proof (py_max_ge _ _ _ Em (in_map snd _ _ Hm2)). lia.
  - pose proof (py_max_ge _ _ _ Eb (in_map snd _ _ Hb2)). lia.
Qed.

Lemma descending_head {K : Type} (h x : K * Z) (t : list (K * Z)) :
  descending (h :: t) -> In x (h :: t) -> snd x <= snd h.
Proof.
  intros S [<-|H]; [lia|].
  inversion S as [|? ? _ HF]; subst. rewrite Forall_forall in HF.
  now apply HF.
Qed.

Lemma slice_to_head {A : Type} (h : A) (t : list A) (n : Z) :
  1 <= n -> In h (slice_to (h :: t) n).
Proof.
  intros Hn. unfold slice_to. destruct (Z.ltb_spec n 0) as [Hlt|_]; [lia|].
  destruct (Z.to_nat n) as [|k] eqn:E; [lia|]. now left.
Qed.

(** A count of at least 2 somewhere in a descending table survives any
    slice of at least one entry. *)
Lemma slice_to_keeps_max {K : Type} (l : list (K * Z)) (x : K * Z) (n : Z) :
  descending l -> In x l -> 1 <= n ->
  exists h, In h (slice_to l n) /\ snd x <= snd h.
Proof.
  intros S Hx Hn. destruct l as [|h t]; [destruct Hx|].
  exists h. split; [now apply slice_to_head|].
  now apply (descending_head h x t).
Qed.
End MainFacts.

Section WriterProperties.
Import Quantizer.
Context {F : FloatOps} {L : FloatLaws F}.

(** X9.  The grouping index maps a leading token to the trailing tokens and
    counts of exactly the bigrams that lead with it, in the order of the
    bigram list; a token that leads no bigram reads as the empty list. *)
Theorem X9_grouping_index {U : Unicode} (bigrams : list Bigram) (k : string) :
  bigram_dict_get (group_bigrams bigrams) k = complements_of k bigrams.
Proof.
  unfold group_bigrams. now rewrite bigram_dict_get_fold.
Qed.

(** X10.  [write_wordlist] leaves no file exactly when the monogram list or
    the bigram list is empty. *)
Theorem X10_artifact_iff_nonempty {U : Unicode}
    (HunSpell : string -> string -> speller) (now : Z)
    (monograms : list Monogram) (bigrams : list Bigram)
    (lang description : string) (offensive : option (list string)) :
  artifact (write_wordlist HunSpell now monograms bigrams lang description
              offensive) = None
  <-> monograms = [] \/ bigrams = [].
Proof.
  split.
  - destruct (py_max (map snd monograms)) as [mm|e] eqn:Em.
    + destruct (py_max (map snd bigrams)) as [mb|e] eqn:Eb.
      * rewrite (write_wordlist_opened _ _ _ _ _ _ _ mm mb Em Eb).
        discriminate.
      * intros _. right. apply py_max_Raise in Eb.
        now apply map_eq_nil in Eb.
    + intros _. left. apply py_max_Raise in Em. now apply map_eq_nil in Em.
  - intros H. now rewrite write_wordlist_empty.
Qed.



(** X13.  If no monogram count is negative and one is at least 2, and every
    bigram count is at least 1 and one is at least 2, [write_wordlist]
    raises nothing and leaves a file. *)
Theorem X13_write_wordlist_returns {U : Unicode}
    (HunSpell : string -> string -> speller) (now : Z)
    (monograms : list Monogram) (bigrams : list Bigram)
    (lang description : string) (offensive : option (list string)) :
  (forall m, In m monograms -> 0 <= snd m) ->
  (exists m, In m monograms /\ 2 <= snd m) ->
  (forall b, In b bigrams -> 1 <= snd b) ->
  (exists b, In b bigrams /\ 2 <= snd b) ->
  raised (write_wordlist HunSpell now monograms bigrams lang description
            offensive) = None
  /\ artifact (write_wordlist HunSpell now monograms bigrams lang description
                 offensive) <> None.
Proof.
  apply write_wordlist_returns.
Qed.

(** X14.  If the first monogram has count 1, no later count is above 1, the
    bigram list is not empty and the first monogram resolves to a non-empty
    word, [write_wordlist] raises [ZeroDivisionError] after the header: the
    file it leaves holds the header line alone. *)
Theorem X14_all_counts_one_truncates {U : Unicode}
    (HunSpell : string -> string -> speller) (now : Z)
    (key word : string) (rest : list Monogram) (bigrams : list Bigram)
    (lang description : string) (offensive : option (list string)) :
  (forall m, In m rest -> snd m <= 1) ->
  bigrams <> [] ->
  resolve_word (hobj_of HunSpell lang) key = Some word ->
  word <> EmptyString ->
  write_wordlist HunSpell now ((key, 1) :: rest) bigrams lang description
    offensive
  = {| artifact := Some [header lang description now];
       raised := Some ZeroDivisionError |}.
Proof.
  intros Hrest Hb R NE.
  destruct (py_max_nonempty (map snd ((key, 1) :: rest))) as [mm Em];
    [discriminate|].
  assert (mm = 1) as ->.
  { pose proof (py_max_ge _ _ _ Em (or_introl eq_refl)) as H1.
    pose proof (py_max_In _ _ Em) as H2. simpl in H1, H2.
    destruct H2 as [H2|H2]; [lia|].
    apply in_map_iff in H2 as [m [<- Hin]]. specialize (Hrest m Hin). lia. }
  destruct (py_max_nonempty (map snd bigrams)) as [mb Eb].
  { destruct bigrams; [contradiction|discriminate]. }
  rewrite (write_wordlist_opened _ _ _ _ _ _ _ 1 mb Em Eb).
  cbn [write_monograms]. unfold write_monogram. cbn [fst snd]. rewrite R.
  destruct (String.eqb_spec word EmptyString) as [E|_]; [contradiction|].
  unfold monogram_freq. cbn [Z.eqb].
  rewrite word_cnt_to_freq_max_one by lia. reflexivity.
Qed.

(** X15.  A token of the profanity set that the dictionary accepts in its
    lowercase form is written as the single line
    [ word=<token>,f=0,possibly_offensive=true], with no bigram line under
    it, whatever the offensive list, the limits and the maxima are. *)
Theorem X15_profane_word_line {U : Unicode} (hobj : speller)
    (input : list (list string)) (m_profanity m_offensive : list string)
    (bigram_limit mm mb : Z) (tok : string) (cnt : Z) :
  In (tok, cnt) (fst (generate_ngrams input (Some m_profanity))) ->
  str_in tok m_profanity = true ->
  hobj tok = Some true ->
  tok <> EmptyString ->
  write_monogram hobj (m_offensive ++ m_profanity) mm mb
    (group_bigrams
       (slice_to (snd (generate_ngrams input (Some m_profanity)))
          bigram_limit))
    (tok, cnt)
  = ([(" word=" ++ tok ++ ",f=0,possibly_offensive=true")%string], None).
Proof.
  intros Hin S Hh NE.
  assert (cnt = 0) as ->.
  { unfold generate_ngrams in Hin. simpl in Hin.
    apply (proj1 (sorted_desc_In _ _)) in Hin.
    destruct (count_lines_ok m_profanity (fun _ => True) input) as [Hm _];
      [auto|].
    destruct (Hm _ _ Hin) as (_ & _ & H0 & _). now apply H0. }
  unfold write_monogram, resolve_word. cbn [fst snd]. rewrite Hh.
  destruct (String.eqb_spec tok EmptyString) as [E|_]; [contradiction|].
  unfold monogram_freq. cbn [Z.eqb].
  unfold group_bigrams. rewrite bigram_dict_get_fold. cbn [app bigram_dict_get
    dict_get].
  assert (complements_of tok
            (slice_to (snd (generate_ngrams input (Some m_profanity)))
               bigram_limit) = []) as ->.
  { destruct (complements_of tok _) as [|[c n] l] eqn:E; [reflexivity|].
    exfalso.
    assert (In (c, n) (complements_of tok
              (slice_to (snd (generate_ngrams input (Some m_profanity)))
                 bigram_limit))) as H by (rewrite E; now left).
    apply complements_of_In, slice_to_In in H.
    unfold generate_ngrams in H. simpl in H.
    apply (proj1 (sorted_desc_In _ _)) in H.
    destruct (count_lines_bigram_keys m_profanity input _ _ H)
      as (_ & _ & _ & S1 & _). simpl in S1. congruence. }
  cbn [write_bigrams]. unfold word_line, offensive_suffix.
  rewrite str_in_app, S, orb_true_r. reflexivity.
Qed.

(** X16.  With a limit of at least 1, a run of [main] whose monogram table
    and bigram table both hold a count of at least 2 raises nothing and
    leaves a file. *)
Theorem X16_main_returns {U : Unicode}
    (HunSpell : string -> string -> speller) (now : Z) (lang : string)
    (input : list (list string)) (limit : Z)
    (profanity offensive : option (list string)) (description : string) :
  let m_profanity := match profanity with Some p => p | None => [] end in
  1 <= limit ->
  (exists m, In m (fst (generate_ngrams input (Some m_profanity)))
             /\ 2 <= snd m) ->
  (exists b, In b (snd (generate_ngrams input (Some m_profanity)))
             /\ 2 <= snd b) ->
  raised (main HunSpell now lang input limit profanity offensive description)
  = None
  /\ artifact (main HunSpell now lang input limit profanity offensive
                 description) <> None.
Proof.
  intros prof Hl [m [Hm Hm2]] [b [Hb Hb2]]. unfold main. fold prof.
  destruct (generate_ngrams input (Some prof)) as [ms bs] eqn:G.
  assert (ms = sorted_desc (fst (count_lines prof input))
          /\ bs = sorted_desc (snd (count_lines prof input))) as [Ems Ebs].
  { unfold generate_ngrams in G. injection G as <- <-. split; reflexivity. }
  simpl in Hm, Hb.
  destruct (count_lines_ok prof (fun _ => True) input) as [Im Ib]; [auto|].
  apply write_wordlist_returns.
  - intros x Hx. apply slice_to_In in Hx. rewrite Ems in Hx.
    apply (proj1 (sorted_desc_In _ _)) in Hx. destruct x as [k c].
    destruct (Im _ _ Hx) as (_ & _ & H0 & H1). simpl.
    destruct (str_in k prof); [rewrite H0 by reflexivity|specialize (H1 eq_refl)];
      lia.
  - destruct (slice_to_keeps_max ms m limit) as [h [Hh Hle]]; auto.
    + rewrite Ems. apply sorted_desc_descending.
    + exists h. split; [exact Hh|lia].
  - intros x Hx. apply slice_to_In in Hx. rewrite Ebs in Hx.
    apply (proj1 (sorted_desc_In _ _)) in Hx. destruct x as [k c].
    apply (Ib _ _ Hx).
  - destruct (slice_to_keeps_max bs b (Z.min (5 * 10 ^ 4) limit)) as [h [Hh Hle]];
      auto.
    + rewrite Ebs. apply sorted_desc_descending.
    + change (5 * 10 ^ 4) with 50000. lia.
    + exists h. split; [exact Hh|lia].
Qed.

End WriterProperties.

(** ** The further properties on concrete runs *)

Section FurtherQuantizerRuns.
#[local] Existing Instance ExactArith.ops.
#[local] Existing Instance exact_laws.
Import Quantizer.

Lemma X1_word_cnt_to_freq_outcome_witness :
  word_cnt_to_freq (-3) 5 false = Raise ValueError
  /\ word_cnt_to_freq 4 0 true = Raise ValueError
  /\ word_cnt_to_freq 4 1 true = Raise ZeroDivisionError
  /\ exists f, word_cnt_to_freq 4 9 false = Ok f.
Proof.
  split; [apply (proj1 (X1_word_cnt_to_freq_outcome (-3) 5 false)); lia|].
  split; [apply (proj1 (proj2 (X1_word_cnt_to_freq_outcome 4 0 true))); lia|].
  split;
    [apply (proj1 (proj2 (proj2 (X1_word_cnt_to_freq_outcome 4 1 true)))); lia|].
  apply (proj2 (proj2 (proj2 (X1_word_cnt_to_freq_outcome 4 9 false)))). lia.
Defined.

Lemma X2_count_one_is_bottom_witness :
  word_cnt_to_freq 1 12 false = Ok 1 /\ word_cnt_to_freq 1 12 true = Ok 176.
Proof.
  apply (X2_count_one_is_bottom 12). lia.
Defined.


End FurtherQuantizerRuns.

Section FurtherRuns.
#[local] Existing Instance AsciiText.unicode.
#[local] Existing Instance ExactArith.ops.
#[local] Existing Instance exact_laws.
Import Quantizer Examples.
Open Scope string_scope.

Lemma X4_monogram_count_is_occurrences_witness :
  2%Z = occurrences "the" cat_input.
Proof.
  apply (X4_monogram_count_is_occurrences cat_input (Some ["damn"]) "the" 2%Z).
  - vm_compute. tauto.
  - reflexivity.
Defined.

Lemma X5_bigram_count_is_occurrences_witness :
  2%Z = pair_occurrences ("guten", "morgen") german_input.
Proof.
  apply (X5_bigram_count_is_occurrences german_input (Some ["arsch"])
           ("guten", "morgen") 2%Z).
  vm_compute. tauto.
Defined.

Lemma X8_bigram_keys_witness :
  isalpha "cat" = true /\ isalpha "ran" = true
  /\ str_in "cat" ["damn"] = false /\ str_in "ran" ["damn"] = false
  /\ exists line x y,
       In line cat_input /\ In (x, y) (ngrams2 line)
       /\ "cat" = dict_normalize x /\ "ran" = dict_normalize y.
Proof.
  apply (X8_bigram_keys cat_input (Some ["damn"]) "cat" "ran" 1%Z).
  vm_compute. tauto.
Defined.

Lemma X10_artifact_iff_nonempty_witness :
  artifact (write_wordlist english 0 [] paris_bigrams "en" "English" None)
  = None.
Proof.
  apply (proj2 (X10_artifact_iff_nonempty english 0 [] paris_bigrams "en"
                  "English" None)).
  left. reflexivity.
Defined.



Lemma X13_write_wordlist_returns_witness :
  raised (write_wordlist english 0 paris_monograms paris_bigrams "en"
            "English" None) = None
  /\ artifact (write_wordlist english 0 paris_monograms paris_bigrams "en"
                 "English" None) <> None.
Proof.
  apply (X13_write_wordlist_returns english 0 paris_monograms paris_bigrams
           "en" "English" None).
  - intros m [<-|[<-|[]]]; simpl; lia.
  - exists ("paris", 2%Z). split; [now left|simpl; lia].
  - intros b [<-|[]]; simpl; lia.
  - exists (("paris", "is"), 2%Z). split; [now left|simpl; lia].
Defined.

Lemma X14_all_counts_one_truncates_witness :
  write_wordlist english 0 [("visit", 1%Z); ("paris", 1%Z)]
    [(("visit", "paris"), 1%Z)] "en" "English" None
  = {| artifact := Some [header "en" "English" 0];
       raised := Some ZeroDivisionError |}.
Proof.
  apply (X14_all_counts_one_truncates english 0 "visit" "visit"
           [("paris", 1%Z)] [(("visit", "paris"), 1%Z)] "en" "English" None).
  - intros m [<-|[]]. simpl. lia.
  - discriminate.
  - reflexivity.
  - discriminate.
Defined.

Lemma X15_profane_word_line_witness :
  write_monogram (accepting ["the"; "cat"; "damn"] "" "") ([] ++ ["damn"]) 2 1
    (group_bigrams
       (slice_to (snd (generate_ngrams cat_input (Some ["damn"]))) 10))
    ("damn", 0%Z)
  = ([" word=damn,f=0,possibly_offensive=true"], None).
Proof.
  apply (X15_profane_word_line (accepting ["the"; "cat"; "damn"] "" "")
           cat_input ["damn"] [] 10 2 1 "damn" 0).
  - vm_compute. tauto.
  - reflexivity.
  - reflexivity.
  - discriminate.
Defined.

Lemma X16_main_returns_witness :
  raised (main german 0 "de" german_input 10 (Some ["arsch"]) None "Deutsch")
  = None
  /\ artifact (main german 0 "de" german_input 10 (Some ["arsch"]) None
                 "Deutsch") <> None.
Proof.
  apply (X16_main_returns german 0 "de" german_input 10 (Some ["arsch"]) None
           "Deutsch").
  - lia.
  - exists ("guten", 2%Z). split; [vm_compute; tauto|simpl; lia].
  - exists (("guten", "morgen"), 2%Z). split; [vm_compute; tauto|simpl; lia].
Defined.

End FurtherRuns.
